(** * OSCAR device connections: record/replay framework

    A shallow embedding of [oscar/SleepLib/deviceconnection.cpp]: the XML
    replay events, the replay index, the connection manager and the serial
    port connection, followed by the properties proved about them.

    Conventions of the embedding.
    - [QString] is [string], [QByteArray] and [char*] buffers are
      [list byte], [qint64] and the Qt enumerations are [Z]; the width of
      [long] is a parameter, [Platform].
    - [QHash] is stdpp's [gmap]; the const [operator[]] and [value()] return
      a default-constructed value for a missing key.
    - Objects reached through pointers ([XmlReplayEvent*]) live in the list
      that owns them; a pointer is a position in that list.
    - The XML stream classes of Qt are represented by what they exchange:
      an element is a name, the ordered attribute list and the text; the
      reader delivers no element that repeats an attribute name.
    - A failed [Q_ASSERT] or a call outside a documented precondition
      ([QList::first] on an empty list) is [None]. *)

From Stdlib Require Import ZArith Lia List Ascii String.
From Stdlib.Strings Require Import Byte.
From Stdlib Require Import DecimalString HexadecimalString DecimalZ DecimalPos.
From stdpp Require Import gmap strings list fin_maps.

Local Open Scope string_scope.
Local Open Scope list_scope.
Local Open Scope Z_scope.

(** ** The C++ type [long]

    [QString::toLong] returns a [long], whose width depends on the target:
    64 bits on 64-bit Linux and macOS, 32 bits on Windows, for which the
    application is built as well ([Q_OS_WIN] in [main.cpp]). *)

Inductive LongWidth := long32 | long64.

Class Platform := long_width : LongWidth.

Definition LONG_MAX {platform : Platform} : Z :=
  match long_width with
  | long32 => 2147483647
  | long64 => 9223372036854775807
  end.

Definition LONG_MIN {platform : Platform} : Z := - LONG_MAX - 1.

(** Whether a 64-bit number survives the narrowing to [long]. *)
Definition fits_long {platform : Platform} (z : Z) : bool :=
  (LONG_MIN <=? z) && (z <=? LONG_MAX).

(** ** Qt string helpers *)

Module QString.

(** [QString::number(qint64)]: decimal, with a leading minus sign. *)
Definition number (n : Z) : string :=
  DecimalString.NilZero.string_of_int (Z.to_int n).

(** [QString::number(n, 16)] for a non-negative [n]: lower-case digits. *)
Definition number16 (n : N) : string :=
  HexadecimalString.NilZero.string_of_uint (N.to_hex_uint n).

Definition upper_char (c : ascii) : ascii :=
  let n := nat_of_ascii c in
  if ((97 <=? n) && (n <=? 122))%nat then ascii_of_nat (n - 32) else c.

(** [QString::toUpper]. *)
Fixpoint toUpper (s : string) : string :=
  match s with
  | EmptyString => EmptyString
  | String c s' => String (upper_char c) (toUpper s')
  end.

Fixpoint replicate_char (n : nat) (c : ascii) : string :=
  match n with
  | O => EmptyString
  | S n' => String c (replicate_char n' c)
  end.

(** [QString("%1").arg(n, fieldWidth, 16, fillChar)]: right-aligned. *)
Definition arg16 (n : N) (fieldWidth : nat) (fillChar : ascii) : string :=
  let digits := number16 n in
  replicate_char (fieldWidth - String.length digits) fillChar +:+ digits.

(** [QStringList::join(QChar)]. *)
Definition join (sep : ascii) (parts : list string) : string :=
  String.concat (String sep EmptyString) parts.

(** [QString::split(sep)] with the default [KeepEmptyParts]: a string
    without separator, the empty one included, is a one-element list. *)
Fixpoint split (sep : ascii) (s : string) : list string :=
  match s with
  | EmptyString => [EmptyString]
  | String c s' =>
      if Ascii.eqb c sep then EmptyString :: split sep s'
      else match split sep s' with
           | x :: xs => String c x :: xs
           | [] => [String c EmptyString]
           end
  end.

Definition hex_value (c : ascii) : option N :=
  let n := N_of_ascii c in
  if ((48 <=? n) && (n <=? 57))%N then Some (n - 48)%N
  else if ((97 <=? n) && (n <=? 102))%N then Some (n - 87)%N
  else if ((65 <=? n) && (n <=? 70))%N then Some (n - 55)%N
  else None.

Fixpoint parse_hex (acc : N) (s : string) : option N :=
  match s with
  | EmptyString => Some acc
  | String c s' =>
      match hex_value c with
      | Some d => parse_hex (16 * acc + d)%N s'
      | None => None
      end
  end.

(** [QString::toShort(&ok, 16)] on a plain digit string: [None] is
    [ok == false] (the call then returns 0).  Qt also accepts a sign, a
    [0x] prefix and surrounding white space; the payload encoder never
    produces them and they are rejected here. *)
Definition toShort16 (s : string) : option Z :=
  match s with
  | EmptyString => None
  | _ => match parse_hex 0 s with
         | Some n => if (n <=? 32767)%N then Some (Z.of_N n) else None
         | None => None
         end
  end.

(** [QChar::isSpace], a character of the model being the [QChar] with
    the same code (U+0000 to U+00FF): the space, the controls U+0009 to
    U+000D, U+0085 and the no-break space U+00A0. *)
Definition isSpace (c : ascii) : bool :=
  let n := N_of_ascii c in
  ((n =? 32) || ((9 <=? n) && (n <=? 13)) || (n =? 133) || (n =? 160))%N.

Fixpoint skip_spaces (s : string) : string :=
  match s with
  | EmptyString => EmptyString
  | String c s' => if isSpace c then skip_spaces s' else s
  end.

Fixpoint all_spaces (s : string) : bool :=
  match s with
  | EmptyString => true
  | String c s' => isSpace c && all_spaces s'
  end.

Fixpoint trim_right (s : string) : string :=
  match s with
  | EmptyString => EmptyString
  | String c s' => if all_spaces s then EmptyString
                   else String c (trim_right s')
  end.

(** White space removed at both ends, as the number parser of [QLocale]
    does before it looks at the digits. *)
Definition trimmed (s : string) : string := trim_right (skip_spaces s).

(** [QString::toLongLong(&ok)] in base 10: white space at either end,
    one optional sign, [+] or [-], and at least one digit; anything else,
    or a number outside 64 bits, is [ok == false]. *)
Definition toLongLong (s : string) : option Z :=
  let number :=
    match trimmed s with
    | EmptyString => None
    | String c digits as t =>
        if Ascii.eqb c "+"
        then Decimal.Pos <$> DecimalString.NilZero.uint_of_string digits
        else DecimalString.NilZero.int_of_string t
    end in
  match number with
  | Some i =>
      let z := Z.of_int i in
      if (-9223372036854775808 <=? z) && (z <=? 9223372036854775807)
      then Some z else None
  | None => None
  end.

(** [QString::toLong(&ok)]: the 64-bit number is narrowed to [long] and
    a number that does not survive the narrowing is [ok == false]. *)
Definition toLong {platform : Platform} (s : string) : option Z :=
  match toLongLong s with
  | Some z => if fits_long z then Some z else None
  | None => None
  end.

End QString.

(** A [char] obtained by narrowing an integer: the low eight bits. *)
Definition char_of_Z (z : Z) : byte :=
  match Byte.of_N (Z.to_N (z mod 256)) with
  | Some b => b
  | None => x00
  end.

(** ** XML elements

    What [QXmlStreamWriter] is asked to write for one event and what
    [QXmlStreamReader] hands back: the element name, the attributes in
    document order and the text.  The nested [<serial>] elements of the port
    enumeration event are not represented. *)

Record XmlElement := mkElement {
  el_name : string;
  el_attrs : list (string * string);
  el_text : string
}.

(** [QXmlStreamReader] is a conforming XML reader.  A start tag in which
    an attribute name occurs twice is not well formed: the reader raises
    an error there and delivers neither that element nor anything behind
    it.  The attribute names written for an event are its keys, which the
    program takes from identifiers fixed in the source; of the rules of
    XML this is the one such an element can break, and the one kept
    here. *)
Definition well_formed (el : XmlElement) : Prop := NoDup (el_attrs el).*1.

(** ** XML record/playback event base class *)

(** The concrete event classes, one per [REGISTER_XMLREPLAYEVENT]. *)
Inductive EventClass :=
| GetAvailableSerialPortsEvent
| ConnectionEvent
| SetValueEvent
| GetValueEvent
| OpenConnectionEvent
| CloseConnectionEvent
| ClearConnectionEvent
| FlushConnectionEvent
| ReceiveDataEvent
| TransmitDataEvent.

Global Instance EventClass_eq_dec : EqDecision EventClass.
Proof. solve_decision. Defined.

(** [XmlReplayBase<Derived>::TAG]. *)
Definition TAG (c : EventClass) : string :=
  match c with
  | GetAvailableSerialPortsEvent => "getAvailableSerialPorts"
  | ConnectionEvent => "TBD"
  | SetValueEvent => "set"
  | GetValueEvent => "get"
  | OpenConnectionEvent => "openConnection"
  | CloseConnectionEvent => "closeConnection"
  | ClearConnectionEvent => "clear"
  | FlushConnectionEvent => "flush"
  | ReceiveDataEvent => "rx"
  | TransmitDataEvent => "tx"
  end.

(** [usesData()]: overridden to true by the two data-transfer events. *)
Definition usesData (c : EventClass) : bool :=
  match c with
  | ReceiveDataEvent | TransmitDataEvent => true
  | _ => false
  end.

(** A [QDateTime], kept as the ISO-8601 text [operator<<] prints for it. *)
Definition QDateTime := string.

Record XmlReplayEvent := mkEvent {
  ev_class : EventClass;
  m_time : QDateTime;
  m_next : option nat;
  m_values : gmap string string;
  m_keys : list string;
  m_data : string
}.

(** [Q_ASSERT(cond)]. *)
Definition Q_ASSERT (cond : bool) : option unit :=
  if cond then Some tt else None.

(** The const [operator[]] of [QHash<QString,QString>]. *)
Definition value_or_default (m : gmap string string) (k : string) : string :=
  default "" (m !! k).

Module Event.

(** [XmlReplayEvent::XmlReplayEvent()], run at clock reading [now]. *)
Definition new (c : EventClass) (now : QDateTime) : XmlReplayEvent :=
  mkEvent c now None ∅ [] "".

(** [tag()]. *)
Definition tag (e : XmlReplayEvent) : string := TAG (ev_class e).

(** [set(const QString &, const QString &)]. *)
Definition set (name value : string) (e : XmlReplayEvent) : XmlReplayEvent :=
  mkEvent (ev_class e) (m_time e) (m_next e)
          (<[name := value]> (m_values e))
          (m_keys e ++ [name])
          (m_data e).

(** [set(const QString &, qint64)]. *)
Definition set_int (name : string) (value : Z) (e : XmlReplayEvent)
  : XmlReplayEvent :=
  set name (QString.number value) e.

(** One turn of the loop of [setData]. *)
Definition hex_byte (b : byte) : string :=
  QString.toUpper (QString.arg16 (Byte.to_N b) 2 "0").

(** [setData(data, length)]; [data] holds at least [length] bytes. *)
Definition setData (data : list byte) (length : Z) (e : XmlReplayEvent)
  : option XmlReplayEvent :=
  _ ← Q_ASSERT (usesData (ev_class e));
  let bytes := map hex_byte (take (Z.to_nat length) data) in
  Some (mkEvent (ev_class e) (m_time e) (m_next e) (m_values e) (m_keys e)
                (QString.join " " bytes)).

(** [get(name)]. *)
Definition get (name : string) (e : XmlReplayEvent) : string :=
  value_or_default (m_values e) name.

(** The body of the loop of [getData]: a piece that is not a number
    appends the 0 that [toShort] returns with [ok == false]. *)
Definition byte_of_hex (b : string) : byte :=
  char_of_Z (default 0 (QString.toShort16 b)).

(** [getData()]. *)
Definition getData (e : XmlReplayEvent) : option (list byte) :=
  _ ← Q_ASSERT (usesData (ev_class e));
  let bytes := QString.split " " (m_data e) in
  Some (map byte_of_hex bytes).

(** [ok()]. *)
Definition ok (e : XmlReplayEvent) : bool :=
  negb (bool_decide (is_Some (m_values e !! "error"))).

(** [copyIf(other)]; [None] is the null pointer. *)
Definition copyIf (other : option XmlReplayEvent) (e : XmlReplayEvent)
  : XmlReplayEvent :=
  match other with
  | None => e
  | Some o =>
      mkEvent (ev_class e) (m_time e) (m_next e)
              (m_values o) (m_keys o) (m_data o)
  end.

(** [id()]: the base class answers the empty string; the overrides of
    the set/get events take [m_keys.first()], those of the open/close
    events [m_values["name"]], the transmit event its payload text. *)
Definition id (e : XmlReplayEvent) : option string :=
  match ev_class e with
  | SetValueEvent | GetValueEvent => head (m_keys e)
  | OpenConnectionEvent | CloseConnectionEvent =>
      Some (value_or_default (m_values e) "name")
  | TransmitDataEvent => Some (m_data e)
  | _ => Some ""
  end.

(** [write(xml)]: the attributes and the text handed to the writer.  The
    port enumeration event overrides it and writes nested elements only. *)
Definition write (e : XmlReplayEvent)
  : option (list (string * string) * string) :=
  match ev_class e with
  | GetAvailableSerialPortsEvent => Some ([], "")
  | _ =>
      let attrs := map (λ key, (key, value_or_default (m_values e) key))
                       (m_keys e) in
      if bool_decide (m_data e = "") then Some (attrs, "")
      else _ ← Q_ASSERT (usesData (ev_class e)); Some (attrs, m_data e)
  end.

(** The loop of [read(xml)] over the attributes. *)
Definition read_attribs (attribs : list (string * string))
    (e : XmlReplayEvent) : XmlReplayEvent :=
  fold_left (λ ev attrib,
               if bool_decide (attrib.1 ≠ "time")
               then set attrib.1 attrib.2 ev else ev)
            attribs e.

(** [read(xml)]; the port enumeration event overrides it and reads the
    nested elements only. *)
Definition read (el : XmlElement) (e : XmlReplayEvent) : XmlReplayEvent :=
  match ev_class e with
  | GetAvailableSerialPortsEvent => e
  | _ =>
      let e1 := read_attribs (el_attrs el) e in
      if usesData (ev_class e)
      then mkEvent (ev_class e1) (m_time e1) (m_next e1)
                   (m_values e1) (m_keys e1) (el_text el)
      else e1
  end.

(** [operator<<(QXmlStreamWriter &, const XmlReplayEvent &)]. *)
Definition serialize (e : XmlReplayEvent) : option XmlElement :=
  '(attrs, text) ← write e;
  Some (mkElement (tag e) (("time", m_time e) :: attrs) text).

(** [operator>>(QXmlStreamReader &, XmlReplayEvent &)]: the timestamp is
    parsed into a local and dropped. *)
Definition deserialize (el : XmlElement) (e : XmlReplayEvent)
  : option XmlReplayEvent :=
  _ ← Q_ASSERT (bool_decide (el_name el = tag e));
  Some (read el e).

(** The warning of [get(name)] for a missing attribute prints the event:
    [operator QString] runs [operator<<] on it. *)
Definition get_warning (name : string) (e : XmlReplayEvent) : option unit :=
  if bool_decide (is_Some (m_values e !! name)) then Some tt
  else _ ← serialize e; Some tt.

End Event.

(** ** The recorder *)

(** An [XmlRecorder]: the elements written so far between the prologue
    and the epilogue. *)
Definition XmlRecorder := list XmlElement.

(** [XmlReplayEvent::record(writer)]; [None] as writer is the null
    pointer, for which nothing happens. *)
Definition record (writer : option XmlRecorder) (e : XmlReplayEvent)
  : option (option XmlRecorder) :=
  match writer with
  | None => Some None
  | Some w => el ← Event.serialize e; Some (Some (w ++ [el]))
  end.

(** ** The event class registry *)

(** A [FactoryMethod] of the event registry is the [createInstance] of one
    event class; it is named by that class. *)
Abbreviation EventFactories := (gmap string EventClass).

(** [XmlReplayEvent::registerClass(tag, factory)]. *)
Definition registerEventClass (tag : string) (factory : EventClass)
    (s_factories : EventFactories) : bool * EventFactories :=
  if bool_decide (is_Some (s_factories !! tag)) then (false, s_factories)
  else (true, <[tag := factory]> s_factories).

(** [XmlReplayEvent::createInstance(tag)], the constructor running at
    clock reading [now]. *)
Definition createInstance (s_factories : EventFactories) (tag : string)
    (now : QDateTime) : option XmlReplayEvent :=
  factory ← s_factories !! tag;
  Some (Event.new factory now).

(** The registry after static initialisation: the
    [REGISTER_XMLREPLAYEVENT] lines in source order. *)
Definition registered_event_classes : list EventClass :=
  [ GetAvailableSerialPortsEvent; ConnectionEvent; SetValueEvent;
    GetValueEvent; OpenConnectionEvent; CloseConnectionEvent;
    ClearConnectionEvent; FlushConnectionEvent; ReceiveDataEvent;
    TransmitDataEvent ].

Definition static_event_factories : EventFactories :=
  fold_left (λ s c, (registerEventClass (TAG c) c s).2)
            registered_event_classes ∅.

(** ** The replay index *)

Record XmlReplay := mkReplay {
  m_eventIndex : gmap string (gmap string (list nat));
  m_events : list XmlReplayEvent
}.

Definition empty_replay : XmlReplay := mkReplay ∅ [].

Definition set_next (p : nat) (e : XmlReplayEvent) : XmlReplayEvent :=
  mkEvent (ev_class e) (m_time e) (Some p) (m_values e) (m_keys e) (m_data e).

(** The body of the loop of [deserializeEvents] after [xml >> *event]:
    link the event behind the last one, append it to [m_events], append it
    to [m_eventIndex[type][id]]. *)
Definition add_event (type : string) (event : XmlReplayEvent) (r : XmlReplay)
  : option XmlReplay :=
  let p := length (m_events r) in
  let linked := match p with
                | O => m_events r
                | S last => alter (set_next p) last (m_events r)
                end in
  id ← Event.id event;
  let ids := default ∅ (m_eventIndex r !! type) in
  let events := default [] (ids !! id) in
  Some (mkReplay (<[type := <[id := events ++ [p]]> ids]> (m_eventIndex r))
                 (linked ++ [event])).

(** [XmlReplay::deserializeEvents] over the start elements of the events
    container; [clock n] is the clock reading when the event object number
    [n] is constructed. *)
Fixpoint deserializeEvents (s_factories : EventFactories)
    (clock : nat → QDateTime) (xml : list XmlElement) (r : XmlReplay)
  : option XmlReplay :=
  match xml with
  | [] => Some r
  | el :: rest =>
      let type := el_name el in
      match createInstance s_factories type (clock (length (m_events r))) with
      | Some event0 =>
          event ← Event.deserialize el event0;
          r' ← add_event type event r;
          deserializeEvents s_factories clock rest r'
      | None => deserializeEvents s_factories clock rest r
      end
  end.

(** [XmlReplay::getNextEvent(type, id)]. *)
Definition getNextEvent (type id : string) (r : XmlReplay)
  : option nat * XmlReplay :=
  match m_eventIndex r !! type with
  | Some ids =>
      match ids !! id with
      | Some (event :: events) =>
          (Some event,
           mkReplay (<[type := <[id := events]> ids]> (m_eventIndex r))
                    (m_events r))
      | _ => (None, r)
      end
  | None => (None, r)
  end.

(** [XmlReplay::getNextEvent<T>(id)]: the [dynamic_cast] of what the
    untyped lookup popped. *)
Definition getNextEventT (T : EventClass) (id : string) (r : XmlReplay)
  : option XmlReplayEvent * XmlReplay :=
  let '(event, r') := getNextEvent (TAG T) id r in
  (p ← event; e ← m_events r' !! p;
   if bool_decide (ev_class e = T) then Some e else None, r').

(** A run of lookups, one per requested key. *)
Fixpoint lookups (keys : list (string * string)) (r : XmlReplay)
  : list (option nat) :=
  match keys with
  | [] => []
  | k :: rest =>
      let '(event, r') := getNextEvent k.1 k.2 r in
      event :: lookups rest r'
  end.

(** ** The physical transport

    [QSerialPort] is an external collaborator: the connection only needs
    the calls below.  Those that change the port return the new port. *)

(** [QSerialPort::SerialPortError]. *)
Inductive SerialPortError :=
| NoError | DeviceNotFoundError | PermissionError | OpenError | ParityError
| FramingError | BreakConditionError | WriteError | ReadError
| ResourceError | UnsupportedOperationError | UnknownError | TimeoutError
| NotOpenError.

Global Instance SerialPortError_eq_dec : EqDecision SerialPortError.
Proof. solve_decision. Defined.

(** The enumerators' values, as [set(name, qint64)] prints them. *)
Definition error_code (e : SerialPortError) : Z :=
  match e with
  | NoError => 0 | DeviceNotFoundError => 1 | PermissionError => 2
  | OpenError => 3 | ParityError => 4 | FramingError => 5
  | BreakConditionError => 6 | WriteError => 7 | ReadError => 8
  | ResourceError => 9 | UnsupportedOperationError => 10
  | UnknownError => 11 | TimeoutError => 12 | NotOpenError => 13
  end.

Class Transport (Port : Type) := {
  port_new : Port;
  port_setPortName : string → Port → Port;
  port_open : Port → bool * Port;
  port_error : Port → SerialPortError;
  port_setBaudRate : Z → Z → Port → bool * Port;
  port_setDataBits : Z → Port → bool * Port;
  port_setParity : Z → Port → bool * Port;
  port_setStopBits : Z → Port → bool * Port;
  port_setFlowControl : Z → Port → bool * Port;
  port_clear : Z → Port → bool * Port;
  port_bytesAvailable : Port → Z;
  port_read : Z → Port → Z * list byte * Port;
  port_write : list byte → Z → Port → Z * Port;
  port_flush : Port → bool * Port;
  port_close : Port → Port
}.

(** The objects behind the [m_record] and [m_replay] pointers that the
    manager hands to every connection it creates. *)
Record Context := mkContext {
  ctx_record : option XmlRecorder;
  ctx_replay : option XmlReplay
}.

(** ** Serial port connection *)

Section SerialPortConnection.
Context {Port : Type} `{!Transport Port} {platform : Platform}.

Record SerialPortConnection := mkConnection {
  m_name : string;
  m_opened : bool;
  m_port : Port
}.

(** [checkResult(bool ok, event)]. *)
Definition checkResult_bool (port : Port) (ok : bool) (event : XmlReplayEvent)
  : XmlReplayEvent :=
  let error := port_error port in
  if ok && bool_decide (error = NoError) then event
  else
    let event := Event.set_int "error" (error_code error) event in
    if ok then Event.set_int "ok" 1 event else event.

(** [checkResult(qint64 len, event)]. *)
Definition checkResult_len (port : Port) (len : Z) (event : XmlReplayEvent)
  : XmlReplayEvent :=
  let error := port_error port in
  if (len <? 0) || bool_decide (error ≠ NoError)
  then Event.set_int "error" (error_code error) event
  else event.

(** [checkError(event)]. *)
Definition checkError (port : Port) (event : XmlReplayEvent)
  : XmlReplayEvent :=
  let error := port_error port in
  if bool_decide (error ≠ NoError)
  then Event.set_int "error" (error_code error) event
  else event.

(** [OpenConnectionEvent(type, name)] and [CloseConnectionEvent(type, name)]. *)
Definition ConnectionLifecycleEvent (c : EventClass) (type name : string)
    (now : QDateTime) : XmlReplayEvent :=
  Event.set "name" name (Event.set "type" type (Event.new c now)).

(** [SetValueEvent(name, value)]. *)
Definition SetValueEvent_new (name : string) (value : Z) (now : QDateTime)
  : XmlReplayEvent :=
  Event.set_int name value (Event.new SetValueEvent now).

(** [GetValueEvent(id)]. *)
Definition GetValueEvent_new (id : string) (now : QDateTime)
  : XmlReplayEvent :=
  Event.set_int id 0 (Event.new GetValueEvent now).

(** [GetValueEvent::setValue(value)]. *)
Definition setValue (value : Z) (e : XmlReplayEvent) : XmlReplayEvent :=
  match m_keys e with
  | [] => e
  | first :: _ => Event.set_int first value e
  end.

(** [GetValueEvent::value()]. *)
Definition value (e : XmlReplayEvent) : string :=
  match m_keys e with
  | [] => ""
  | first :: _ => Event.get first e
  end.

(** The warning [value()] can print: that of [get] for the first key.
    With no key it prints a text only. *)
Definition value_warning (e : XmlReplayEvent) : option unit :=
  match m_keys e with
  | [] => Some tt
  | first :: _ => Event.get_warning first e
  end.

(** What one operation leaves behind: the value returned to the caller,
    the outcome event it built (none when it returned before building
    one), the connection and the recorder/replay context. *)
Record Outcome (R : Type) := mkOutcome {
  out_result : R;
  out_event : option XmlReplayEvent;
  out_conn : SerialPortConnection;
  out_ctx : Context
}.
Global Arguments mkOutcome {R} _ _ _ _.
Global Arguments out_result {R} _.
Global Arguments out_event {R} _.
Global Arguments out_conn {R} _.
Global Arguments out_ctx {R} _.

(** [SerialPortConnection::open()]. *)
Definition open (now : QDateTime) (c : SerialPortConnection) (x : Context)
  : option (Outcome bool) :=
  if m_opened c then Some (mkOutcome false None c x)
  else
    let event := ConnectionLifecycleEvent OpenConnectionEvent "serial"
                                          (m_name c) now in
    let '(event, port, replay) :=
      match ctx_replay x with
      | None =>
          let port := port_setPortName (m_name c) (m_port c) in
          let '(ok, port) := port_open port in
          (checkResult_bool port ok event, port, None)
      | Some r =>
          let '(replayEvent, r) :=
            getNextEventT OpenConnectionEvent (m_name c) r in
          (match replayEvent with
           | Some _ => Event.copyIf replayEvent event
           | None =>
               Event.set_int "error" (error_code DeviceNotFoundError) event
           end, m_port c, Some r)
      end in
    rec ← record (ctx_record x) event;
    Some (mkOutcome (Event.ok event) (Some event)
                    (mkConnection (m_name c) (Event.ok event) port)
                    (mkContext rec replay)).

(** The shape shared by [setBaudRate], [setDataBits], [setParity],
    [setStopBits], [setFlowControl], [clear] and [flush]: [event] is the
    proposed event, [id] the identity passed to the lookup (evaluated in
    the replay branch only), [live] the transport call. *)
Definition bool_operation (T : EventClass) (event : XmlReplayEvent)
    (id : option string) (live : Port → bool * Port)
    (c : SerialPortConnection) (x : Context) : option (Outcome bool) :=
  '(event, port, replay) ←
    match ctx_replay x with
    | None =>
        let '(ok, port) := live (m_port c) in
        Some (checkResult_bool port ok event, port, None)
    | Some r =>
        id ← id;
        let '(replayEvent, r) := getNextEventT T id r in
        Some (Event.copyIf replayEvent event, m_port c, Some r)
    end;
  rec ← record (ctx_record x) event;
  Some (mkOutcome (Event.ok event) (Some event)
                  (mkConnection (m_name c) (m_opened c) port)
                  (mkContext rec replay)).

(** [setBaudRate(baudRate, directions)]. *)
Definition setBaudRate (now : QDateTime) (baudRate directions : Z) :=
  let event := Event.set_int "directions" directions
                 (SetValueEvent_new "baudRate" baudRate now) in
  bool_operation SetValueEvent event (Event.id event)
                 (port_setBaudRate baudRate directions).

(** [setDataBits(dataBits)]. *)
Definition setDataBits (now : QDateTime) (dataBits : Z) :=
  let event := SetValueEvent_new "setDataBits" dataBits now in
  bool_operation SetValueEvent event (Event.id event)
                 (port_setDataBits dataBits).

(** [setParity(parity)]. *)
Definition setParity (now : QDateTime) (parity : Z) :=
  let event := SetValueEvent_new "setParity" parity now in
  bool_operation SetValueEvent event (Event.id event)
                 (port_setParity parity).

(** [setStopBits(stopBits)]. *)
Definition setStopBits (now : QDateTime) (stopBits : Z) :=
  let event := SetValueEvent_new "setStopBits" stopBits now in
  bool_operation SetValueEvent event (Event.id event)
                 (port_setStopBits stopBits).

(** [setFlowControl(flowControl)]. *)
Definition setFlowControl (now : QDateTime) (flowControl : Z) :=
  let event := SetValueEvent_new "setFlowControl" flowControl now in
  bool_operation SetValueEvent event (Event.id event)
                 (port_setFlowControl flowControl).

(** [clear(directions)]; the lookup uses the default identity. *)
Definition clear (now : QDateTime) (directions : Z) :=
  let event := Event.set_int "directions" directions
                 (Event.new ClearConnectionEvent now) in
  bool_operation ClearConnectionEvent event (Some "")
                 (port_clear directions).

(** [flush()]; the lookup uses the default identity. *)
Definition flush (now : QDateTime) :=
  let event := Event.new FlushConnectionEvent now in
  bool_operation FlushConnectionEvent event (Some "") port_flush.

(** [bytesAvailable()].  In the replay branch a value that is not a
    number is reported with [event.id()], that is [m_keys.first()]. *)
Definition bytesAvailable (now : QDateTime) (c : SerialPortConnection)
    (x : Context) : option (Outcome Z) :=
  let event := GetValueEvent_new "bytesAvailable" now in
  '(result, event, replay) ←
    match ctx_replay x with
    | None =>
        let result := port_bytesAvailable (m_port c) in
        let event := setValue result event in
        Some (result, checkResult_len (m_port c) result event, None)
    | Some r =>
        id ← Event.id event;
        let '(replayEvent, r) := getNextEventT GetValueEvent id r in
        let event := Event.copyIf replayEvent event in
        _ ← value_warning event;
        match QString.toLong (value event) with
        | Some result => Some (result, event, Some r)
        | None => _ ← Event.id event; Some (0, event, Some r)
        end
    end;
  rec ← record (ctx_record x) event;
  Some (mkOutcome result (Some event) c (mkContext rec replay)).

(** The tail of the replay branches of [read] and [write]: the length
    is parsed from the [len] attribute, -1 when that is not a number.  The
    warnings on the way print a data-transfer event, whose [write] asserts
    nothing that can fail. *)
Definition replayed_len (event : XmlReplayEvent) : Z :=
  default (-1) (QString.toLong (Event.get "len" event)).

(** What the replay branches of [read] and [write] do with the result
    of the lookup. *)
Definition replayed_transfer (replayEvent : option XmlReplayEvent)
    (event : XmlReplayEvent) : XmlReplayEvent :=
  let event := Event.copyIf replayEvent event in
  match replayEvent with
  | Some _ => event
  | None =>
      Event.set_int "error" (error_code ReadError)
                    (Event.set_int "len" (-1) event)
  end.

(** [read(data, maxSize)]: the result is the returned length with the
    bytes stored into [data].  The function ends by printing the outcome
    event to [qDebug()]. *)
Definition read (now : QDateTime) (maxSize : Z) (c : SerialPortConnection)
    (x : Context) : option (Outcome (Z * list byte)) :=
  let event := Event.new ReceiveDataEvent now in
  match ctx_replay x with
  | None =>
      let '(len, data, port) := port_read maxSize (m_port c) in
      event ← (if 0 <? len then Event.setData data len event
               else Some event);
      let event := Event.set_int "len" len event in
      let event := if bool_decide (len ≠ maxSize)
                   then Event.set_int "req" maxSize event else event in
      let event := checkResult_len port len event in
      Some (mkOutcome (len, data) (Some event)
                      (mkConnection (m_name c) (m_opened c) port) x)
  | Some r =>
      id ← Event.id event;
      let '(replayEvent, r) := getNextEventT ReceiveDataEvent id r in
      let event := replayed_transfer replayEvent event in
      Some (mkOutcome (replayed_len event, []) (Some event) c
                      (mkContext (ctx_record x) (Some r)))
  end.

(** [write(data, maxSize)]. *)
Definition write (now : QDateTime) (data : list byte) (maxSize : Z)
    (c : SerialPortConnection) (x : Context) : option (Outcome Z) :=
  event ← Event.setData data maxSize (Event.new TransmitDataEvent now);
  '(len, event, port, replay) ←
    match ctx_replay x with
    | None =>
        let '(len, port) := port_write data maxSize (m_port c) in
        let event := Event.set_int "len" len event in
        let event := if bool_decide (len ≠ maxSize)
                     then Event.set_int "req" maxSize event else event in
        Some (len, checkResult_len port len event, port, None)
    | Some r =>
        id ← Event.id event;
        let '(replayEvent, r) := getNextEventT TransmitDataEvent id r in
        let event := replayed_transfer replayEvent event in
        Some (replayed_len event, event, m_port c, Some r)
    end;
  rec ← record (ctx_record x) event;
  Some (mkOutcome len (Some event)
                  (mkConnection (m_name c) (m_opened c) port)
                  (mkContext rec replay)).

(** [close()]. *)
Definition close (now : QDateTime) (c : SerialPortConnection) (x : Context)
  : option (Outcome unit) :=
  let event := ConnectionLifecycleEvent CloseConnectionEvent "serial"
                                        (m_name c) now in
  let '(event, port, replay) :=
    match ctx_replay x with
    | None =>
        let port := port_close (m_port c) in
        (checkError port event, port, None)
    | Some r =>
        let '(replayEvent, r) :=
          getNextEventT CloseConnectionEvent (m_name c) r in
        (match replayEvent with
         | Some _ => Event.copyIf replayEvent event
         | None => Event.set_int "error" (error_code ResourceError) event
         end, m_port c, Some r)
    end in
  rec ← record (ctx_record x) event;
  Some (mkOutcome tt (Some event)
                  (mkConnection (m_name c) (m_opened c) port)
                  (mkContext rec replay)).

End SerialPortConnection.

Arguments SerialPortConnection Port : clear implicits.
Arguments Outcome Port R : clear implicits.

(** ** Device connection manager *)

Section DeviceConnectionManager.
Context {Port : Type} `{!Transport Port}.

(** A [DeviceConnection::FactoryMethod]: the connection it constructs for
    a name, [None] when it returns the null pointer.  The recorder and
    replay pointers it receives are those of the manager. *)
Local Abbreviation FactoryMethod :=
  (string → option (SerialPortConnection Port)).

Local Abbreviation ConnectionFactories := (gmap string FactoryMethod).

(** [DeviceConnectionManager::registerClass(type, factory)]. *)
Definition registerClass (type : string) (factory : FactoryMethod)
    (s_factories : ConnectionFactories) : bool * ConnectionFactories :=
  if bool_decide (is_Some (s_factories !! type)) then (false, s_factories)
  else (true, <[type := factory]> s_factories).

(** [SerialPortConnection::createInstance], from
    [REGISTER_DEVICECONNECTION("serial", SerialPortConnection)]. *)
Definition SerialPortConnection_createInstance : FactoryMethod :=
  λ name, Some (mkConnection name false port_new).

Definition static_connection_factories : ConnectionFactories :=
  (registerClass "serial" SerialPortConnection_createInstance ∅).2.

(** The manager; a [DeviceConnection*] is an address in [Memory]. *)
Record DeviceConnectionManager := mkManager {
  m_record : option XmlRecorder;
  m_replay : option XmlReplay;
  m_connections : gmap string nat
}.

Local Abbreviation Memory := (gmap nat (SerialPortConnection Port)).

Definition manager_context (mgr : DeviceConnectionManager) : Context :=
  mkContext (m_record mgr) (m_replay mgr).

Definition with_context (x : Context) (mgr : DeviceConnectionManager)
  : DeviceConnectionManager :=
  mkManager (ctx_record x) (ctx_replay x) (m_connections mgr).

(** [DeviceConnectionManager::connectionClosed(conn)]. *)
Definition connectionClosed (conn : nat) (name : string)
    (mgr : DeviceConnectionManager) : DeviceConnectionManager :=
  match m_connections mgr !! name with
  | Some p =>
      if bool_decide (p = conn)
      then mkManager (m_record mgr) (m_replay mgr)
                     (delete name (m_connections mgr))
      else mgr
  | None => mgr
  end.

(** [delete conn]: [~SerialPortConnection()], then the storage is gone. *)
Definition delete_connection (now : QDateTime) (conn : nat)
    (mgr : DeviceConnectionManager) (mem : Memory)
  : option (DeviceConnectionManager * Memory) :=
  c ← mem !! conn;
  mgr ← (if m_opened c
         then close now c (manager_context mgr) ≫= λ out : Outcome Port unit,
              Some (connectionClosed conn (m_name c)
                      (with_context (out_ctx out) mgr))
         else Some mgr);
  Some (mgr, delete conn mem).

(** [DeviceConnectionManager::openConnection(type, name)]; [now] and
    [later] are the clock readings for the open event and for an event of
    the destructor. *)
Definition openConnection (s_factories : ConnectionFactories)
    (now later : QDateTime) (type name : string)
    (mgr : DeviceConnectionManager) (mem : Memory)
  : option (option nat * DeviceConnectionManager * Memory) :=
  match s_factories !! type with
  | None => Some (None, mgr, mem)
  | Some factory =>
      if bool_decide (is_Some (m_connections mgr !! name))
      then Some (None, mgr, mem)
      else
        match factory name with
        | Some c =>
            let conn := fresh (dom mem) in
            open now c (manager_context mgr) ≫= λ out : Outcome Port bool,
            let mgr := with_context (out_ctx out) mgr in
            let mem := <[conn := out_conn out]> mem in
            if out_result out
            then Some (Some conn,
                       mkManager (m_record mgr) (m_replay mgr)
                                 (<[name := conn]> (m_connections mgr)),
                       mem)
            else
              '(mgr, mem) ← delete_connection later conn mgr mem;
              Some (None, mgr, mem)
        | None => Some (None, mgr, mem)
        end
  end.

End DeviceConnectionManager.

Abbreviation FactoryMethod Port :=
  (string → option (SerialPortConnection Port)).
Abbreviation ConnectionFactories Port := (gmap string (FactoryMethod Port)).
Abbreviation Memory Port := (gmap nat (SerialPortConnection Port)).

(** The closed examples of this file run on a build whose [long] has 64
    bits. *)
Global Instance example_platform : Platform := long64.

(** ** A transport without hardware

    Every call succeeds, nothing is ever received and every write is
    accepted in full. *)
Global Instance null_transport : Transport unit := {|
  port_new := tt;
  port_setPortName := λ _ (p : unit), p;
  port_open := λ p : unit, (true, p);
  port_error := λ _ : unit, NoError;
  port_setBaudRate := λ _ _ (p : unit), (true, p);
  port_setDataBits := λ _ (p : unit), (true, p);
  port_setParity := λ _ (p : unit), (true, p);
  port_setStopBits := λ _ (p : unit), (true, p);
  port_setFlowControl := λ _ (p : unit), (true, p);
  port_clear := λ _ (p : unit), (true, p);
  port_bytesAvailable := λ _ : unit, 0;
  port_read := λ _ (p : unit), (0, [], p);
  port_write := λ _ maxSize (p : unit), (maxSize, p);
  port_flush := λ p : unit, (true, p);
  port_close := λ p : unit, p
|}.

(** * Properties *)

(** ** The Qt helpers on small inputs *)

Example number_neg : QString.number (-1) = "-1".
Proof. reflexivity. Qed.
Example arg16_pad : QString.toUpper (QString.arg16 10 2 "0") = "0A".
Proof. reflexivity. Qed.
Example split_empty : QString.split " " "" = [""].
Proof. reflexivity. Qed.
Example split_two : QString.split " " "41 42" = ["41"; "42"].
Proof. reflexivity. Qed.
Example toLong_neg : QString.toLong "-1" = Some (-1).
Proof. reflexivity. Qed.
Example toLong_signed :
  QString.toLong " +42 " = Some 42 ∧ QString.toLong "+-42" = None ∧
  QString.toLong "4 2" = None ∧ QString.toLong "" = None.
Proof. repeat split. Qed.
Example toLong_narrowed :
  QString.toLong (platform := long32) "4294967296" = None ∧
  QString.toLong (platform := long64) "4294967296" = Some 4294967296.
Proof. split; reflexivity. Qed.
Example toShort16_ff : QString.toShort16 "FF" = Some 255.
Proof. reflexivity. Qed.

Example set_twice_keys :
  m_keys (Event.set "a" "2" (Event.set "a" "1" (Event.new ClearConnectionEvent "t")))
  = ["a"; "a"].
Proof. reflexivity. Qed.

(** ** The payload text *)

Section HexPayload.

Fixpoint free_of (sep : ascii) (s : string) : bool :=
  match s with
  | EmptyString => true
  | String c s' => negb (Ascii.eqb c sep) && free_of sep s'
  end.

Lemma split_free_of sep s :
  free_of sep s = true → QString.split sep s = [s].
Proof.
  induction s as [|c s IH]; simpl; [done|].
  intros [Hc Hs]%andb_prop. apply negb_true_iff in Hc.
  rewrite Hc, (IH Hs). done.
Qed.

Lemma split_append_sep sep x rest :
  free_of sep x = true →
  QString.split sep (x +:+ String sep rest) = x :: QString.split sep rest.
Proof.
  induction x as [|c x IH]; simpl.
  - intros _. by rewrite Ascii.eqb_refl.
  - intros [Hc Hx]%andb_prop. apply negb_true_iff in Hc.
    rewrite Hc, (IH Hx). done.
Qed.

Lemma split_join sep part parts :
  Forall (λ p, free_of sep p = true) (part :: parts) →
  QString.split sep (QString.join sep (part :: parts)) = part :: parts.
Proof.
  revert part. induction parts as [|q parts IH]; intros part Hfree.
  - apply split_free_of. by inversion Hfree.
  - inversion Hfree as [|? ? Hp Hrest]; subst.
    change (QString.join sep (part :: q :: parts))
      with (part +:+ String sep (QString.join sep (q :: parts))).
    rewrite split_append_sep by done. by rewrite IH.
Qed.

Lemma hex_byte_free_of_space b : free_of " " (Event.hex_byte b) = true.
Proof. destruct b; reflexivity. Qed.

Lemma byte_of_hex_hex_byte b : Event.byte_of_hex (Event.hex_byte b) = b.
Proof. destruct b; reflexivity. Qed.

(** Decoding undoes encoding on every payload of at least one byte. *)
Lemma getData_setData_nonempty e data :
  usesData (ev_class e) = true →
  data ≠ [] →
  Event.setData data (Z.of_nat (length data)) e ≫= Event.getData = Some data.
Proof.
  intros Huses Hne. unfold Event.setData, Event.getData. rewrite Huses. simpl.
  rewrite Huses. simpl. f_equal.
  rewrite Nat2Z.id, firstn_all.
  destruct data as [|b data]; [done|]. simpl map at 2.
  rewrite split_join.
  - change (map Event.byte_of_hex (map Event.hex_byte (b :: data)) = b :: data).
    rewrite map_map. rewrite <- (map_id (b :: data)) at 2.
    apply map_ext. intros. apply byte_of_hex_hex_byte.
  - change (Forall (λ p, free_of " " p = true) (map Event.hex_byte (b :: data))).
    generalize (b :: data). intros l.
    induction l; simpl; constructor; auto using hex_byte_free_of_space.
Qed.

(** C5 (the code at the failing input).  An empty payload is encoded as
    the empty text, which [split] turns into one empty piece, which
    [toShort] rejects: decoding yields the single byte 0. *)
Theorem getData_setData_empty e data :
  usesData (ev_class e) = true →
  Event.setData data 0 e ≫= Event.getData = Some [x00].
Proof.
  intros Huses. unfold Event.setData, Event.getData. rewrite Huses. simpl.
  rewrite Huses. reflexivity.
Qed.

Lemma getData_setData_empty_witness :
  Event.setData [] 0 (Event.new TransmitDataEvent "2020-06-01T12:00:00.000Z")
    ≫= Event.getData = Some [x00].
Proof. apply (getData_setData_empty _ []). reflexivity. Defined.

End HexPayload.

(** ** The attribute list *)

Section Attributes.

(** The attributes [write] hands to the stream writer. *)
Definition written_attributes (e : XmlReplayEvent)
  : option (list (string * string)) :=
  fst <$> Event.write e.

(** The value read back for a key is the one written last. *)
Lemma get_set_same name value e :
  Event.get name (Event.set name value e) = value.
Proof. unfold Event.get, value_or_default. simpl. by rewrite lookup_insert_eq. Qed.

Lemma get_set_other name name' value e :
  name ≠ name' →
  Event.get name' (Event.set name value e) = Event.get name' e.
Proof.
  intros. unfold Event.get, value_or_default. simpl.
  by rewrite lookup_insert_ne.
Qed.

(** Every [set] appends its key, whether the key is new or not. *)
Lemma keys_set name value e :
  m_keys (Event.set name value e) = m_keys e ++ [name].
Proof. reflexivity. Qed.

Lemma attributes_of_values (m : gmap string string)
    (attrs : list (string * string)) :
  (∀ k v, (k, v) ∈ attrs → m !! k = Some v) →
  map (λ key, (key, value_or_default m key)) attrs.*1 = attrs.
Proof.
  induction attrs as [|[k v] attrs IH]; intros Hin; [done|].
  simpl. unfold value_or_default at 1. rewrite (Hin k v) by left. simpl.
  f_equal. apply IH. intros. apply Hin. by right.
Qed.

(** Keys set once each are written in insertion order. *)
Lemma written_attributes_distinct c now (attrs : list (string * string)) :
  c ≠ GetAvailableSerialPortsEvent →
  NoDup attrs.*1 →
  written_attributes
    (fold_left (λ e a, Event.set a.1 a.2 e) attrs (Event.new c now))
  = Some attrs.
Proof.
  intros Hc Hnd.
  set (build := fold_left (λ e a, Event.set a.1 a.2 e)).
  assert (Hinv : ∀ e,
             ev_class (build attrs e) = ev_class e ∧
             m_data (build attrs e) = m_data e ∧
             m_keys (build attrs e) = m_keys e ++ attrs.*1 ∧
             (∀ k, k ∉ attrs.*1 →
                   m_values (build attrs e) !! k = m_values e !! k) ∧
             (∀ k v, (k, v) ∈ attrs →
                     m_values (build attrs e) !! k = Some v)).
  { clear Hc. induction attrs as [|[k v] attrs IH]; intros e.
    - simpl. rewrite app_nil_r. repeat split; auto. intros ? ? []%elem_of_nil.
    - apply NoDup_cons in Hnd as [Hk Hnd].
      destruct (IH Hnd (Event.set k v e)) as (Hcl & Hd & Hks & Hother & Hin).
      simpl. rewrite Hcl, Hd, Hks. simpl. rewrite <- app_assoc.
      repeat split; auto.
      + intros k' Hk'. apply not_elem_of_cons in Hk' as [? ?].
        rewrite Hother by done. simpl. by rewrite lookup_insert_ne.
      + intros k' v' [Heq|Hin']%elem_of_cons.
        * inversion Heq; subst. rewrite Hother by done.
          simpl. by rewrite lookup_insert_eq.
        * by apply Hin. }
  destruct (Hinv (Event.new c now)) as (Hcl & Hd & Hks & _ & Hin).
  unfold written_attributes, Event.write. rewrite Hcl, Hd, Hks. simpl.
  rewrite (attributes_of_values _ attrs Hin). by destruct c.
Qed.

(** C8 (the code at the failing input).  Setting one key twice stores
    the last value and lists the key twice: it is written twice, both
    times with the last value. *)
Theorem set_twice_written_twice c now name first last :
  c ≠ GetAvailableSerialPortsEvent →
  let e := Event.set name last (Event.set name first (Event.new c now)) in
  Event.get name e = last ∧
  m_keys e = [name; name] ∧
  written_attributes e = Some [(name, last); (name, last)].
Proof.
  intros Hc e. split; [apply get_set_same|]. split; [done|].
  unfold written_attributes, Event.write, e. simpl.
  unfold value_or_default. rewrite lookup_insert_eq. simpl.
  by destruct c.
Qed.

Lemma set_twice_written_twice_witness :
  let e := Event.set "bytesAvailable" "5"
             (Event.set "bytesAvailable" "0"
                (Event.new GetValueEvent "2020-06-01T12:00:00.000Z")) in
  Event.get "bytesAvailable" e = "5" ∧
  m_keys e = ["bytesAvailable"; "bytesAvailable"] ∧
  written_attributes e
  = Some [("bytesAvailable", "5"); ("bytesAvailable", "5")].
Proof.
  apply (set_twice_written_twice GetValueEvent). discriminate.
Defined.

(** C9.  [copyIf] with a recorded event takes over its attribute
    values, key order and payload and keeps the fresh event's class,
    timestamp and link; with the null pointer it changes nothing. *)
Theorem copyIf_keeps_timestamp other e :
  m_values (Event.copyIf (Some other) e) = m_values other ∧
  m_keys (Event.copyIf (Some other) e) = m_keys other ∧
  m_data (Event.copyIf (Some other) e) = m_data other ∧
  m_time (Event.copyIf (Some other) e) = m_time e ∧
  m_next (Event.copyIf (Some other) e) = m_next e ∧
  ev_class (Event.copyIf (Some other) e) = ev_class e ∧
  Event.copyIf None e = e.
Proof. repeat split. Qed.

End Attributes.

(** ** The registries *)

Section Registries.
Context {Port : Type} `{!Transport Port} `{!Platform}.

Lemma registerEventClass_registered tag factory s :
  is_Some ((registerEventClass tag factory s).2 !! tag).
Proof.
  unfold registerEventClass. case_bool_decide; simpl; [done|].
  rewrite lookup_insert_eq. eauto.
Qed.

Lemma registerClass_registered type (factory : FactoryMethod Port) s :
  is_Some ((registerClass type factory s).2 !! type).
Proof.
  unfold registerClass. case_bool_decide; simpl; [done|].
  rewrite lookup_insert_eq. eauto.
Qed.

(** C7.  In both registries a registration under a tag that is taken
    returns false and leaves the registry, hence the factory registered
    first, as it was; being an ordinary return, it stops nothing. *)
Theorem duplicate_registration_rejected
    tag (first second : EventClass) (es : EventFactories)
    type (cfirst csecond : FactoryMethod Port) (cs : ConnectionFactories Port) :
  es !! tag = Some first →
  cs !! type = Some cfirst →
  registerEventClass tag second es = (false, es) ∧
  (registerEventClass tag second es).2 !! tag = Some first ∧
  registerClass type csecond cs = (false, cs) ∧
  (registerClass type csecond cs).2 !! type = Some cfirst.
Proof.
  intros Hes Hcs. unfold registerEventClass, registerClass.
  rewrite !bool_decide_eq_true_2 by (rewrite ?Hes, ?Hcs; eauto). done.
Qed.

(** A first registration succeeds and a second one under the same tag
    is rejected, whatever the registry was before. *)
Lemma second_registration_rejected tag (f1 f2 : EventClass) es
    type (c1 c2 : FactoryMethod Port) cs :
  es !! tag = None → cs !! type = None →
  let es1 := registerEventClass tag f1 es in
  let cs1 := registerClass type c1 cs in
  es1.1 = true ∧ registerEventClass tag f2 es1.2 = (false, es1.2) ∧
  es1.2 !! tag = Some f1 ∧
  cs1.1 = true ∧ registerClass type c2 cs1.2 = (false, cs1.2) ∧
  cs1.2 !! type = Some c1.
Proof.
  intros Hes Hcs. unfold registerEventClass, registerClass.
  rewrite (bool_decide_eq_false_2 (is_Some (es !! tag)))
    by (rewrite Hes; by intros [? ?]).
  rewrite (bool_decide_eq_false_2 (is_Some (cs !! type)))
    by (rewrite Hcs; by intros [? ?]).
  simpl. rewrite !lookup_insert_eq.
  rewrite !bool_decide_eq_true_2 by eauto. done.
Qed.

End Registries.

Lemma duplicate_registration_rejected_witness :
  registerEventClass "set" GetValueEvent static_event_factories
  = (false, static_event_factories) ∧
  (registerEventClass "set" GetValueEvent static_event_factories).2 !! "set"
  = Some SetValueEvent ∧
  registerClass "serial" (λ _, None) static_connection_factories
  = (false, static_connection_factories (Port := unit)) ∧
  (registerClass "serial" (λ _, None) static_connection_factories).2 !! "serial"
  = Some (SerialPortConnection_createInstance (Port := unit)).
Proof.
  apply (duplicate_registration_rejected (Port := unit)
           "set" SetValueEvent GetValueEvent static_event_factories
           "serial" SerialPortConnection_createInstance (λ _, None)
           static_connection_factories).
  - vm_compute. reflexivity.
  - unfold static_connection_factories, registerClass. simpl.
    apply lookup_insert_eq.
Defined.

(** ** Recording *)

Section Recording.

(** The payload assertion of [write] holds. *)
Definition data_allowed (e : XmlReplayEvent) : Prop :=
  m_data e ≠ "" → usesData (ev_class e) = true.

Lemma serialize_total e :
  data_allowed e → is_Some (Event.serialize e).
Proof.
  intros Hd. unfold Event.serialize, Event.write.
  destruct (ev_class e) eqn:Hc; simpl; eauto;
    case_bool_decide as Hdata; simpl; eauto;
    specialize (Hd Hdata); rewrite Hc in Hd; simpl in Hd;
    try discriminate; eauto.
Qed.

(** [record] with a recorder appends exactly the serialised event. *)
Lemma record_appends w e rec :
  record (Some w) e = Some rec →
  ∃ el, Event.serialize e = Some el ∧ rec = Some (w ++ [el]).
Proof.
  unfold record. destruct (Event.serialize e) as [el|]; simpl; [|done].
  intros [= <-]. eauto.
Qed.

Lemma record_total w e :
  data_allowed e → is_Some (record w e).
Proof.
  intros [el Hel]%serialize_total. unfold record.
  destruct w; [rewrite Hel|]; simpl; eauto.
Qed.

Lemma data_allowed_set name value e :
  data_allowed e → data_allowed (Event.set name value e).
Proof. done. Qed.

Lemma data_allowed_uses e : usesData (ev_class e) = true → data_allowed e.
Proof. by intros ? ?. Qed.

Lemma data_allowed_empty e : m_data e = "" → data_allowed e.
Proof. by intros ? ?. Qed.

End Recording.

Create HintDb recording discriminated.
#[export] Hint Resolve data_allowed_set data_allowed_uses data_allowed_empty
  : recording.

(** ** The replay lookup seen from an operation *)

Lemma getNextEvent_none_unchanged type id r :
  (getNextEvent type id r).1 = None → getNextEvent type id r = (None, r).
Proof.
  unfold getNextEvent.
  destruct (m_eventIndex r !! type) as [ids|]; [|done].
  destruct (ids !! id) as [[|p events]|]; done.
Qed.

Lemma getNextEventT_none T id r :
  (getNextEvent (TAG T) id r).1 = None → getNextEventT T id r = (None, r).
Proof.
  intros H%getNextEvent_none_unchanged. unfold getNextEventT. by rewrite H.
Qed.

(** ** Replay exhaustion *)

Section Exhaustion.
Context {Port : Type} `{!Transport Port} `{!Platform}.

#[local] Arguments replayed_transfer : simpl never.
#[local] Arguments replayed_len : simpl never.
#[local] Arguments record : simpl never.
#[local] Arguments Event.get : simpl never.
#[local] Arguments Event.ok : simpl never.
#[local] Arguments Event.set_int : simpl never.
#[local] Arguments Event.set : simpl never.

(** The identity under which [write] looks its event up: the payload
    text. *)
Definition transmit_id (data : list byte) (maxSize : Z) : string :=
  QString.join " " (map Event.hex_byte (take (Z.to_nat maxSize) data)).

(** The event the replay branches of [read] and [write] fall back to. *)
Lemma replayed_transfer_exhausted event :
  let ev := replayed_transfer None event in
  Event.get "len" ev = "-1" ∧
  Event.get "error" ev = QString.number (error_code ReadError) ∧
  Event.ok ev = false ∧
  replayed_len ev = -1 ∧
  ev_class ev = ev_class event ∧ m_data ev = m_data event.
Proof.
  unfold replayed_transfer, replayed_len, Event.set_int. cbn [Event.copyIf].
  rewrite get_set_other, get_set_same by done.
  rewrite get_set_same. repeat split.
  - unfold Event.ok, Event.set. cbn [m_values]. by rewrite lookup_insert_eq.
  - unfold QString.toLong, fits_long, LONG_MIN, LONG_MAX.
    by destruct long_width.
Qed.

(** C2.  When the index holds no event for the requested key, [read]
    and [write] return -1 with [len] = -1 and the read error as
    attributes, [open] returns false with the device-not-found error and
    [close] ends with the resource error; each of them returns. *)
Theorem replay_exhaustion_fallback now maxSize data
    (c : SerialPortConnection Port) x r :
  ctx_replay x = Some r →
  ((getNextEvent "rx" "" r).1 = None →
     ∃ out ev, read now maxSize c x = Some out ∧
       out_result out = (-1, []) ∧ out_event out = Some ev ∧
       Event.get "len" ev = "-1" ∧
       Event.get "error" ev = QString.number (error_code ReadError) ∧
       Event.ok ev = false) ∧
  ((getNextEvent "tx" (transmit_id data maxSize) r).1 = None →
     ∃ out ev, write now data maxSize c x = Some out ∧
       out_result out = -1 ∧ out_event out = Some ev ∧
       Event.get "len" ev = "-1" ∧
       Event.get "error" ev = QString.number (error_code ReadError) ∧
       Event.ok ev = false) ∧
  (m_opened c = false →
   (getNextEvent "openConnection" (m_name c) r).1 = None →
     ∃ out ev, open now c x = Some out ∧
       out_result out = false ∧ out_event out = Some ev ∧
       Event.get "error" ev
       = QString.number (error_code DeviceNotFoundError) ∧
       Event.ok ev = false) ∧
  ((getNextEvent "closeConnection" (m_name c) r).1 = None →
     ∃ out ev, close now c x = Some out ∧
       out_event out = Some ev ∧
       Event.get "error" ev = QString.number (error_code ResourceError) ∧
       Event.ok ev = false).
Proof.
  intros Hreplay. repeat split.
  - intros Hnone. unfold read. rewrite Hreplay. simpl.
    rewrite (getNextEventT_none ReceiveDataEvent "" r Hnone).
    destruct (replayed_transfer_exhausted (Event.new ReceiveDataEvent now))
      as (Hlen & Herr & Hok & Hres & _).
    eexists _, _. split; [reflexivity|]. simpl. rewrite Hres. done.
  - intros Hnone. unfold write, Event.setData. simpl.
    rewrite Hreplay. simpl. fold (transmit_id data maxSize).
    rewrite (getNextEventT_none TransmitDataEvent _ r Hnone).
    match goal with |- context [replayed_transfer None ?e] =>
      destruct (replayed_transfer_exhausted e)
        as (Hlen & Herr & Hok & Hres & Hcl & _);
      destruct (record_total (ctx_record x) (replayed_transfer None e))
        as [rec Hrec]; [apply data_allowed_uses; by rewrite Hcl|]
    end.
    simpl. rewrite Hrec. simpl.
    eexists _, _. split; [reflexivity|]. simpl. rewrite Hres. done.
  - intros Hclosed Hnone. unfold open. rewrite Hclosed, Hreplay.
    rewrite (getNextEventT_none OpenConnectionEvent _ r Hnone).
    match goal with |- context [record _ ?e] =>
      destruct (record_total (ctx_record x) e) as [rec Hrec];
        [by apply data_allowed_empty|]; rewrite Hrec
    end.
    simpl. eexists _, _. split; [reflexivity|]. simpl.
    unfold Event.set_int. rewrite get_set_same. repeat split.
  - intros Hnone. unfold close. rewrite Hreplay.
    rewrite (getNextEventT_none CloseConnectionEvent _ r Hnone).
    match goal with |- context [record _ ?e] =>
      destruct (record_total (ctx_record x) e) as [rec Hrec];
        [by apply data_allowed_empty|]; rewrite Hrec
    end.
    simpl. eexists _, _. split; [reflexivity|]. simpl.
    unfold Event.set_int. rewrite get_set_same. repeat split.
Qed.

End Exhaustion.

Lemma replay_exhaustion_fallback_witness :
  let c := mkConnection "COM3" false tt in
  let x := mkContext (Some []) (Some empty_replay) in
  let now := "2020-06-01T12:00:00.000Z" in
  (∃ out ev, read now 16 c x = Some out ∧
     out_result out = (-1, []) ∧ out_event out = Some ev ∧
     Event.get "len" ev = "-1" ∧
     Event.get "error" ev = QString.number (error_code ReadError) ∧
     Event.ok ev = false) ∧
  (∃ out ev, write now ["A"; "B"]%byte 2 c x = Some out ∧
     out_result out = -1 ∧ out_event out = Some ev ∧
     Event.get "len" ev = "-1" ∧
     Event.get "error" ev = QString.number (error_code ReadError) ∧
     Event.ok ev = false) ∧
  (∃ out ev, open now c x = Some out ∧
     out_result out = false ∧ out_event out = Some ev ∧
     Event.get "error" ev = QString.number (error_code DeviceNotFoundError) ∧
     Event.ok ev = false) ∧
  (∃ out ev, close now c x = Some out ∧
     out_event out = Some ev ∧
     Event.get "error" ev = QString.number (error_code ResourceError) ∧
     Event.ok ev = false).
Proof.
  intros c x now.
  destruct (replay_exhaustion_fallback now 16 ["A"; "B"]%byte c x empty_replay
              eq_refl) as (Hread & Hwrite & Hopen & Hclose).
  split; [apply Hread; reflexivity|].
  split; [apply Hwrite; reflexivity|].
  split; [apply Hopen; reflexivity|].
  apply Hclose; reflexivity.
Defined.

(** ** What reaches the recorder *)

Section Recorded.
Context {Port : Type} `{!Transport Port} `{!Platform}.

(** An operation recorded its outcome: the recorder holds one more
    element, the serialised outcome event. *)
Definition recorded_outcome {R} (x : Context) (out : Outcome Port R) : Prop :=
  ∀ w, ctx_record x = Some w →
    ∃ ev el, out_event out = Some ev ∧ Event.serialize ev = Some el ∧
             ctx_record (out_ctx out) = Some (w ++ [el]).

Ltac recorded_by_record :=
  intros w Hw; rewrite Hw in *;
  match goal with
  | Hrec : record (Some _) _ = Some _ |- _ =>
      apply record_appends in Hrec as (el & Hel & ->); eauto
  end.

Lemma bool_operation_records T event id live
    (c : SerialPortConnection Port) x out :
  bool_operation T event id live c x = Some out → recorded_outcome x out.
Proof.
  unfold bool_operation. intros Hop.
  apply bind_Some in Hop as ([[event' port] replay] & _ & Hop).
  apply bind_Some in Hop as (rec & Hrec & [= <-]). recorded_by_record.
Qed.

Lemma bytesAvailable_records now (c : SerialPortConnection Port) x out :
  bytesAvailable now c x = Some out → recorded_outcome x out.
Proof.
  unfold bytesAvailable. intros Hop.
  apply bind_Some in Hop as ([[result event'] replay] & _ & Hop).
  apply bind_Some in Hop as (rec & Hrec & [= <-]). recorded_by_record.
Qed.

Lemma write_records now data maxSize (c : SerialPortConnection Port) x out :
  write now data maxSize c x = Some out → recorded_outcome x out.
Proof.
  unfold write. intros Hop.
  apply bind_Some in Hop as (event & _ & Hop).
  apply bind_Some in Hop as ([[[len event'] port] replay] & _ & Hop).
  apply bind_Some in Hop as (rec & Hrec & [= <-]). recorded_by_record.
Qed.

Lemma close_records now (c : SerialPortConnection Port) x out :
  close now c x = Some out → recorded_outcome x out.
Proof.
  unfold close. intros Hop.
  destruct (match ctx_replay x with None => _ | Some r => _ end)
    as [[event port] replay].
  apply bind_Some in Hop as (rec & Hrec & [= <-]). recorded_by_record.
Qed.

Lemma open_records now (c : SerialPortConnection Port) x out :
  m_opened c = false →
  open now c x = Some out → recorded_outcome x out.
Proof.
  unfold open. intros -> Hop.
  destruct (match ctx_replay x with None => _ | Some r => _ end)
    as [[event port] replay].
  apply bind_Some in Hop as (rec & Hrec & [= <-]). recorded_by_record.
Qed.

(** C3 (the code at the failing input).  [read] hands its outcome
    event to the debug stream only: live or replayed, with or without a
    recorder, the recorder is left as it was. *)
Theorem read_leaves_recorder now maxSize (c : SerialPortConnection Port) x out :
  read now maxSize c x = Some out →
  ctx_record (out_ctx out) = ctx_record x.
Proof.
  unfold read. destruct (ctx_replay x) as [r|].
  - intros Hop. apply bind_Some in Hop as (id & _ & Hop).
    destruct (getNextEventT ReceiveDataEvent id r) as [replayEvent r'].
    by injection Hop as <-.
  - destruct (port_read maxSize (m_port c)) as [[len data] port].
    intros Hop. apply bind_Some in Hop as (event & _ & [= <-]). done.
Qed.

(** C10.  [open] on a connection that is already opened returns false
    and changes nothing: the port, the replay index and the recorder are
    those it was given, and it built no event. *)
Theorem open_already_opened now (c : SerialPortConnection Port) x :
  m_opened c = true →
  open now c x = Some (mkOutcome false None c x).
Proof. intros Hopened. unfold open. by rewrite Hopened. Qed.

End Recorded.

Lemma read_leaves_recorder_witness :
  let c := mkConnection "COM3" true tt in
  let w := [mkElement "openConnection" [("time", "t0")] ""] in
  let out := mkOutcome (0, []) (Some (Event.set "req" "16"
                  (Event.set "len" "0" (Event.new ReceiveDataEvent "t1"))))
               c (mkContext (Some w) None) in
  read "t1" 16 c (mkContext (Some w) None) = Some out ∧
  ctx_record (out_ctx out) = Some w.
Proof.
  intros c w out. split; [reflexivity|].
  apply (read_leaves_recorder "t1" 16 c (mkContext (Some w) None) out).
  reflexivity.
Defined.

Lemma open_already_opened_witness :
  let c := mkConnection "COM3" true tt in
  let x := mkContext (Some []) (Some empty_replay) in
  open "2020-06-01T12:00:00.000Z" c x = Some (mkOutcome false None c x).
Proof.
  intros c x. apply (open_already_opened _ c x). reflexivity.
Defined.

(** ** Opening connections through the manager *)

Section OpenConnection.
Context {Port : Type} `{!Transport Port} `{!Platform}.

Lemma open_result_is_opened now (c : SerialPortConnection Port) x out :
  m_opened c = false →
  open now c x = Some out →
  m_opened (out_conn out) = out_result out.
Proof.
  unfold open. intros -> Hop.
  destruct (match ctx_replay x with None => _ | Some r => _ end)
    as [[event port] replay].
  apply bind_Some in Hop as (rec & _ & [= <-]). done.
Qed.

(** Deleting a connection that is not opened only frees it. *)
Lemma delete_connection_unopened later conn mgr (mem : Memory Port) c :
  mem !! conn = Some c → m_opened c = false →
  delete_connection later conn mgr mem = Some (mgr, delete conn mem).
Proof.
  intros Hc Hclosed. unfold delete_connection. rewrite Hc. simpl.
  by rewrite Hclosed.
Qed.

(** C6.  [openConnection] returns no connection and leaves the manager
    and every connection as they were when the type is not registered,
    when the name is already open, and when the factory returns null;
    when [open] fails on the constructed connection it returns no
    connection, frees the new instance and leaves the map as it was;
    otherwise it returns the new connection, which is then the one
    registered under the name, the other names keeping theirs. *)
Theorem openConnection_cases (s_factories : ConnectionFactories Port)
    now later type name mgr (mem : Memory Port) :
  (s_factories !! type = None →
     openConnection s_factories now later type name mgr mem
     = Some (None, mgr, mem)) ∧
  (is_Some (m_connections mgr !! name) →
     openConnection s_factories now later type name mgr mem
     = Some (None, mgr, mem)) ∧
  (∀ factory, s_factories !! type = Some factory →
     m_connections mgr !! name = None →
     (factory name = None →
        openConnection s_factories now later type name mgr mem
        = Some (None, mgr, mem)) ∧
     (∀ c out, factory name = Some c → m_opened c = false →
        open now c (manager_context mgr) = Some out →
        let conn := fresh (dom mem) in
        mem !! conn = None ∧
        (out_result out = false →
           openConnection s_factories now later type name mgr mem
           = Some (None, with_context (out_ctx out) mgr, mem)) ∧
        (out_result out = true →
           openConnection s_factories now later type name mgr mem
           = Some (Some conn,
                   mkManager (ctx_record (out_ctx out))
                             (ctx_replay (out_ctx out))
                             (<[name := conn]> (m_connections mgr)),
                   <[conn := out_conn out]> mem)))).
Proof.
  unfold openConnection. split; [by intros ->|]. split.
  - intros Hopen. destruct (s_factories !! type); [|done].
    by rewrite bool_decide_eq_true_2.
  - intros factory -> Hfree.
    rewrite bool_decide_eq_false_2 by (rewrite Hfree; by intros [? ?]).
    split; [by intros ->|].
    intros c out -> Hclosed Hout. set (conn := fresh (dom mem)).
    assert (Hconn : mem !! conn = None)
      by (apply not_elem_of_dom, is_fresh).
    split; [done|]. rewrite Hout. simpl.
    split; intros Hres; rewrite Hres; [|done].
    erewrite delete_connection_unopened.
    + simpl. by rewrite delete_insert_id.
    + apply lookup_insert_eq.
    + by rewrite (open_result_is_opened now c (manager_context mgr) out).
Qed.

End OpenConnection.

(** *** At most one connection per name *)

Section OneConnectionPerName.
Context {Port : Type} `{!Transport Port} `{!Platform}.

(** Every registered name leads to a connection that exists and is
    opened, and no connection is registered under two names. *)
Definition one_connection_per_name (mgr : DeviceConnectionManager)
    (mem : Memory Port) : Prop :=
  (∀ name conn, m_connections mgr !! name = Some conn →
     ∃ c, mem !! conn = Some c ∧ m_opened c = true) ∧
  (∀ name1 name2 conn, m_connections mgr !! name1 = Some conn →
     m_connections mgr !! name2 = Some conn → name1 = name2).

(** The constructors leave a new connection unopened. *)
Definition constructs_unopened (s_factories : ConnectionFactories Port)
  : Prop :=
  ∀ type (factory : FactoryMethod Port) name c,
    s_factories !! type = Some factory → factory name = Some c →
    m_opened c = false.

Lemma static_connection_factories_unopened :
  constructs_unopened static_connection_factories.
Proof.
  intros type factory name c. unfold static_connection_factories, registerClass.
  rewrite bool_decide_eq_false_2
    by (rewrite lookup_empty; by intros [? ?]).
  cbn [snd]. intros [[<- <-] | [_ Hempty]]%lookup_insert_Some.
  - by intros [= <-].
  - by rewrite lookup_empty in Hempty.
Qed.

Lemma openConnection_one_per_name (s_factories : ConnectionFactories Port)
    now later type name mgr (mem : Memory Port) res mgr' mem' :
  constructs_unopened s_factories →
  one_connection_per_name mgr mem →
  openConnection s_factories now later type name mgr mem
  = Some (res, mgr', mem') →
  one_connection_per_name mgr' mem'.
Proof.
  intros Hnew [Hopened Hinj]. unfold openConnection.
  destruct (s_factories !! type) as [factory|] eqn:Hfactory;
    [|by intros [= <- <- <-]].
  case_bool_decide as Hname; [by intros [= <- <- <-]|].
  destruct (factory name) as [c|] eqn:Hc; [|by intros [= <- <- <-]].
  intros Hop. apply bind_Some in Hop as (out & Hout & Hop).
  pose proof (Hnew _ _ _ _ Hfactory Hc) as Hclosed.
  pose proof (open_result_is_opened _ _ _ _ Hclosed Hout) as Hres.
  set (conn := fresh (dom mem)) in *.
  assert (Hconn : mem !! conn = None) by (apply not_elem_of_dom, is_fresh).
  destruct (out_result out) eqn:Hresult.
  - injection Hop as <- <- <-. split; simpl.
    + intros name' conn' [[<- <-]|[Hne Hold]]%lookup_insert_Some.
      * exists (out_conn out). by rewrite lookup_insert_eq.
      * destruct (Hopened _ _ Hold) as (c' & Hc' & Ho').
        exists c'. rewrite lookup_insert_ne; [done|]. congruence.
    + intros name1 name2 conn'
        [[<- <-]|[Hne1 Hold1]]%lookup_insert_Some
        [[<- Heq]|[Hne2 Hold2]]%lookup_insert_Some; try done.
      * destruct (Hopened _ _ Hold2) as (c' & Hc' & _). congruence.
      * destruct (Hopened _ _ Hold1) as (c' & Hc' & _). congruence.
      * by eapply Hinj.
  - erewrite delete_connection_unopened in Hop;
      [|apply lookup_insert_eq|done].
    simpl in Hop. injection Hop as <- <- <-.
    rewrite delete_insert_id by done. done.
Qed.

End OneConnectionPerName.

(** ** Encoding and decoding one event *)

Section EncodeDecode.

(** Encode-then-decode as the recorder and the replay parser do it:
    [operator<<] writes the element, the reader delivers it if it is well
    formed, then [createInstance] on the element name and [operator>>]
    into the fresh instance.  [None]: no event is decoded. *)
Definition encode_decode (s_factories : EventFactories) (now : QDateTime)
    (e : XmlReplayEvent) : option XmlReplayEvent :=
  el ← Event.serialize e;
  if bool_decide (well_formed el)
  then event ← createInstance s_factories (el_name el) now;
       Event.deserialize el event
  else None.

(** The key list and the value map of an event speak of the same keys. *)
Definition consistent (e : XmlReplayEvent) : Prop :=
  ∀ k, k ∈ m_keys e ↔ is_Some (m_values e !! k).

Lemma consistent_new c now : consistent (Event.new c now).
Proof.
  intros k. simpl. rewrite lookup_empty. split.
  - by intros ?%elem_of_nil.
  - by intros [? ?].
Qed.

Lemma consistent_set name value e :
  consistent e → consistent (Event.set name value e).
Proof.
  intros He k. simpl. rewrite elem_of_app, list_elem_of_singleton, (He k).
  destruct (decide (name = k)) as [->|Hne].
  - rewrite lookup_insert_eq. split; eauto.
  - rewrite lookup_insert_ne by done. split; [|by left]. by intros [?|?].
Qed.

Lemma consistent_copyIf other e :
  consistent e → from_option consistent True other →
  consistent (Event.copyIf other e).
Proof. by destruct other. Qed.

Lemma consistent_read_attribs attribs e :
  consistent e → consistent (Event.read_attribs attribs e).
Proof.
  unfold Event.read_attribs. revert e.
  induction attribs as [|a attribs IH]; intros e He; [done|].
  simpl. apply IH. case_bool_decide; [by apply consistent_set|done].
Qed.

Lemma static_event_factories_lookup c :
  static_event_factories !! TAG c = Some c.
Proof. destruct c; vm_compute; reflexivity. Qed.

(** The reader skips the timestamp attribute. *)
Lemma read_attribs_time t attribs e :
  Event.read_attribs (("time", t) :: attribs) e
  = Event.read_attribs attribs e.
Proof.
  unfold Event.read_attribs. cbn [fold_left fst snd].
  by rewrite bool_decide_eq_false_2 by (intros Hne; by apply Hne).
Qed.

(** Reading back the attributes [write] produced from [keys] and [m]. *)
Lemma read_attribs_written (m : gmap string string) keys e0 :
  "time" ∉ keys →
  let e1 := Event.read_attribs
              (map (λ key, (key, value_or_default m key)) keys) e0 in
  ev_class e1 = ev_class e0 ∧ m_time e1 = m_time e0 ∧
  m_next e1 = m_next e0 ∧ m_data e1 = m_data e0 ∧
  m_keys e1 = m_keys e0 ++ keys ∧
  ∀ k, m_values e1 !! k
       = if decide (k ∈ keys) then Some (value_or_default m k)
         else m_values e0 !! k.
Proof.
  unfold Event.read_attribs. revert e0.
  induction keys as [|key keys IH]; intros e0 Htime.
  - cbn [map fold_left]. rewrite app_nil_r. do 5 (split; [done|]).
    intros k. rewrite decide_False; [done|]. by intros ?%elem_of_nil.
  - apply not_elem_of_cons in Htime as [Hkey Htime].
    cbn [map fold_left fst snd].
    rewrite bool_decide_eq_true_2 by done.
    destruct (IH (Event.set key (value_or_default m key) e0) Htime)
      as (Hc & Ht & Hn & Hd & Hk & Hv).
    rewrite Hc, Ht, Hn, Hd, Hk. cbn [Event.set ev_class m_time m_next
      m_data m_keys]. rewrite <- app_assoc.
    do 5 (split; [done|]). intros k. rewrite Hv.
    cbn [Event.set m_values].
    destruct (decide (k ∈ keys)) as [Hin|Hnin].
    + rewrite decide_True; [done|]. by right.
    + destruct (decide (key = k)) as [->|Hne].
      * rewrite lookup_insert_eq, decide_True; [done|]. by left.
      * rewrite lookup_insert_ne by done.
        rewrite decide_False; [done|].
        intros [?|?]%elem_of_cons; congruence.
Qed.

(** An event of a class that serialises through the base
    [write]/[read], whose keys were set once each and are those of its
    values, that has no key named [time] and carries payload text only if
    its class uses data, is decoded from its own encoding with the same
    class, attribute values, key order, payload text and payload bytes. *)
Lemma encode_decode_event now e :
  ev_class e ≠ GetAvailableSerialPortsEvent →
  consistent e →
  NoDup (m_keys e) →
  "time" ∉ m_keys e →
  data_allowed e →
  ∃ e', encode_decode static_event_factories now e = Some e' ∧
        ev_class e' = ev_class e ∧
        m_values e' = m_values e ∧
        m_keys e' = m_keys e ∧
        m_data e' = m_data e ∧
        Event.getData e' = Event.getData e.
Proof.
  intros Hclass Hcons Hkeys Htime Hdata.
  set (attrs := map (λ key, (key, value_or_default (m_values e) key))
                    (m_keys e)).
  assert (Hnames : attrs.*1 = m_keys e).
  { unfold attrs. clear. induction (m_keys e) as [|key keys IH]; [done|].
    cbn [map]. rewrite fmap_cons. cbn [fst]. f_equal. exact IH. }
  assert (Hser : Event.serialize e
                 = Some (mkElement (TAG (ev_class e))
                                   (("time", m_time e) :: attrs) (m_data e))).
  { unfold Event.serialize, Event.write, Event.tag. fold attrs.
    destruct (ev_class e) eqn:Hc; try congruence;
      case_bool_decide as Hd; cbn [mbind option_bind Q_ASSERT usesData];
      try (rewrite Hd; reflexivity); try reflexivity;
      specialize (Hdata Hd); rewrite Hc in Hdata; discriminate. }
  unfold encode_decode. rewrite Hser. cbn [mbind option_bind el_name].
  rewrite bool_decide_eq_true_2
    by (unfold well_formed; cbn [el_attrs fmap list_fmap fst];
        fold (attrs.*1); rewrite Hnames; by apply NoDup_cons).
  unfold createInstance. rewrite static_event_factories_lookup.
  cbn [mbind option_bind].
  unfold Event.deserialize, Event.tag. cbn [el_name Event.new ev_class].
  rewrite bool_decide_eq_true_2 by reflexivity.
  unfold Q_ASSERT. cbn [mbind option_bind].
  destruct (read_attribs_written (m_values e) (m_keys e)
              (Event.new (ev_class e) now) Htime)
    as (Hc & _ & _ & Hd & Hk & Hv).
  fold attrs in Hc, Hd, Hk, Hv.
  assert (Hvalues : m_values (Event.read_attribs attrs
                                (Event.new (ev_class e) now)) = m_values e).
  { apply map_eq. intros k. rewrite Hv. simpl. rewrite lookup_empty.
    destruct (decide (k ∈ m_keys e)) as [Hin|Hnin].
    - apply Hcons in Hin as [v Hin]. unfold value_or_default. by rewrite Hin.
    - symmetry. apply eq_None_not_Some. intros Hs. by apply Hnin, Hcons. }
  set (decoded := Event.read (mkElement _ _ _) _).
  assert (Hdecoded : ev_class decoded = ev_class e ∧
                     m_values decoded = m_values e ∧
                     m_keys decoded = m_keys e ∧
                     m_data decoded = m_data e).
  { unfold decoded, Event.read.
    cbn [el_attrs el_text Event.new ev_class].
    rewrite !read_attribs_time.
    destruct (ev_class e) eqn:Hce; try congruence;
      cbn [usesData ev_class m_values m_keys m_data];
      rewrite ?Hc, ?Hk, ?Hvalues, ?Hd; repeat split; try reflexivity;
      symmetry; apply dec_stable; intros Hne;
      specialize (Hdata Hne); rewrite Hce in Hdata; discriminate. }
  destruct Hdecoded as (Hc' & Hv' & Hk' & Hd').
  exists decoded. repeat split; try assumption.
  unfold Event.getData. by rewrite Hc', Hd'.
Qed.

End EncodeDecode.

(** The element written for an event whose keys are distinct and not
    named [time] is well formed: the reader delivers it. *)
Lemma serialize_well_formed e el :
  NoDup (m_keys e) → "time" ∉ m_keys e →
  Event.serialize e = Some el → well_formed el.
Proof.
  intros Hkeys Htime Hser. unfold Event.serialize in Hser.
  apply bind_Some in Hser as ([attrs text] & Hwrite & [= <-]).
  unfold well_formed. cbn [el_attrs]. rewrite fmap_cons. cbn [fst].
  unfold Event.write in Hwrite.
  assert (Hnames : ∀ keys, (map (λ key, (key, value_or_default (m_values e)
                                                  key)) keys).*1 = keys).
  { induction keys as [|key keys IH]; [done|].
    cbn [map]. rewrite fmap_cons. cbn [fst]. f_equal. exact IH. }
  assert (Hattrs : attrs = [] ∨ attrs.*1 = m_keys e).
  { destruct (ev_class e).
    1: { left. by injection Hwrite as <- _. }
    all: right; case_bool_decide.
    all: try apply bind_Some in Hwrite as (asserted & _ & Hwrite).
    all: injection Hwrite as <- _; apply Hnames. }
  unfold QDateTime in *. destruct Hattrs as [-> | ->].
  - apply NoDup_singleton.
  - by apply NoDup_cons.
Qed.

Example encode_decode_open :
  let e := Event.set "name" "COM3"
             (Event.set "type" "serial"
                (Event.new OpenConnectionEvent "2020-06-01T12:00:00.000Z")) in
  ∃ e', encode_decode static_event_factories "2020-06-02T08:30:00.000Z" e
        = Some e' ∧
        ev_class e' = ev_class e ∧
        m_values e' = m_values e ∧
        m_keys e' = m_keys e ∧
        m_data e' = m_data e ∧
        Event.getData e' = Event.getData e.
Proof.
  intros e. apply (encode_decode_event "2020-06-02T08:30:00.000Z" e).
  - discriminate.
  - apply consistent_set, consistent_set, consistent_new.
  - simpl. apply NoDup_cons. split; [|apply NoDup_singleton].
    intros Hin. apply list_elem_of_singleton in Hin. discriminate.
  - simpl. intros Hin.
    repeat (apply elem_of_cons in Hin as [Hin|Hin]; [discriminate|]).
    by apply elem_of_nil in Hin.
  - by apply data_allowed_empty.
Qed.

Section EncodeLive.
Context {Port : Type} `{!Transport Port} `{!Platform}.

(** C4 (the code at the failing input).  The outcome event of a live
    [bytesAvailable()] holds the byte count under its key and lists that
    key twice; its encoding repeats the attribute, the reader rejects the
    element and no event is decoded from it. *)
Theorem encode_decode_bytesAvailable now later
    (c : SerialPortConnection Port) x :
  ctx_replay x = None →
  ∃ out ev el,
    bytesAvailable now c x = Some out ∧
    out_event out = Some ev ∧
    Event.get "bytesAvailable" ev
    = QString.number (port_bytesAvailable (m_port c)) ∧
    take 2 (m_keys ev) = ["bytesAvailable"; "bytesAvailable"] ∧
    Event.serialize ev = Some el ∧
    ¬ well_formed el ∧
    encode_decode static_event_factories later ev = None.
Proof.
  intros Hx. unfold bytesAvailable. rewrite Hx. cbn [mbind option_bind].
  set (result := port_bytesAvailable (m_port c)).
  set (ev := checkResult_len (m_port c) result
               (setValue result (GetValueEvent_new "bytesAvailable" now))).
  assert (Hev : ∃ keys, ev_class ev = GetValueEvent ∧ m_data ev = "" ∧
                  m_time ev = now ∧
                  m_keys ev = "bytesAvailable" :: "bytesAvailable" :: keys ∧
                  Event.get "bytesAvailable" ev = QString.number result).
  { unfold ev, checkResult_len. destruct (_ || _).
    - exists ["error"]. repeat split.
    - exists []. repeat split. }
  destruct Hev as (keys & Hclass & Hdata & Htime & Hkeys & Hget).
  set (attrs := map (λ key, (key, value_or_default (m_values ev) key))
                    (m_keys ev)).
  assert (Hser : Event.serialize ev
                 = Some (mkElement "get" (("time", now) :: attrs) "")).
  { unfold Event.serialize, Event.write, Event.tag. fold attrs.
    by rewrite Hclass, Hdata, Htime. }
  assert (Hbad : ¬ well_formed (mkElement "get" (("time", now) :: attrs) "")).
  { unfold well_formed, attrs. rewrite Hkeys.
    cbn [el_attrs fmap list_fmap map fst].
    intros Hnd. apply NoDup_cons in Hnd as [_ Hnd].
    apply NoDup_cons in Hnd as [Hin _]. apply Hin. by left. }
  unfold record. destruct (ctx_record x) as [w|];
    [rewrite Hser|]; cbn [mbind option_bind];
    (eexists; exists ev; eexists;
     split; [reflexivity|]; split; [reflexivity|]; split; [exact Hget|];
     split; [by rewrite Hkeys|]; split; [exact Hser|]; split; [exact Hbad|];
     unfold encode_decode; rewrite Hser; cbn [mbind option_bind];
     by rewrite bool_decide_eq_false_2).
Qed.

End EncodeLive.

Lemma encode_decode_bytesAvailable_witness :
  ∃ out ev el,
    bytesAvailable "2020-06-01T12:00:00.000Z" (mkConnection "COM3" true tt)
                   (mkContext (Some []) None) = Some out ∧
    out_event out = Some ev ∧
    Event.get "bytesAvailable" ev = QString.number 0 ∧
    take 2 (m_keys ev) = ["bytesAvailable"; "bytesAvailable"] ∧
    Event.serialize ev = Some el ∧
    ¬ well_formed el ∧
    encode_decode static_event_factories "2020-06-02T08:30:00.000Z" ev = None.
Proof.
  exact (encode_decode_bytesAvailable
           "2020-06-01T12:00:00.000Z" "2020-06-02T08:30:00.000Z"
           (mkConnection "COM3" true tt) (mkContext (Some []) None)
           eq_refl).
Defined.

(** ** The replay index is first in, first out *)

Section ReplayIndex.

(** A lookup key: discriminator and identity. *)
Definition Key := (string * string)%type.

(** The queue the index holds for a key; a missing entry is empty. *)
Definition queue (r : XmlReplay) (k : Key) : list nat :=
  default [] (m_eventIndex r !! k.1 ≫= λ ids, ids !! k.2).

(** The key of an event: its tag and its identity. *)
Definition event_key (e : XmlReplayEvent) : option Key :=
  id ← Event.id e; Some (Event.tag e, id).

(** The positions, counted from [n], of the entries equal to [k]. *)
Fixpoint positions_from (n : nat) (k : Key) (keys : list (option Key))
  : list nat :=
  match keys with
  | [] => []
  | key :: rest =>
      if bool_decide (key = Some k) then n :: positions_from (S n) k rest
      else positions_from (S n) k rest
  end.

(** The events with key [k], oldest first, by their position. *)
Definition positions (k : Key) (events : list XmlReplayEvent) : list nat :=
  positions_from 0 k (event_key <$> events).

(** How often [k] was requested in a list of requests. *)
Definition occurrences (k : Key) (keys : list Key) : nat :=
  length (filter (λ k', k' = k) keys).

(** The events a stream holds, in stream order, as [deserializeEvents]
    reads them: elements with an unknown name are skipped. *)
Fixpoint recorded_events (s_factories : EventFactories)
    (clock : nat → QDateTime) (n : nat) (xml : list XmlElement)
  : list XmlReplayEvent :=
  match xml with
  | [] => []
  | el :: rest =>
      match createInstance s_factories (el_name el) (clock n) with
      | Some event =>
          Event.read el event
            :: recorded_events s_factories clock (S n) rest
      | None => recorded_events s_factories clock n rest
      end
  end.

(** An event without its link to the next one. *)
Definition unlinked (e : XmlReplayEvent) : XmlReplayEvent :=
  mkEvent (ev_class e) (m_time e) None (m_values e) (m_keys e) (m_data e).

Lemma event_key_set_next p e : event_key (set_next p e) = event_key e.
Proof. done. Qed.

Lemma unlinked_set_next p e : unlinked (set_next p e) = unlinked e.
Proof. done. Qed.

Lemma alter_fmap_id {A B} (f : A → B) (g : A → A) i (l : list A) :
  (∀ x, f (g x) = f x) → f <$> alter g i l = f <$> l.
Proof.
  intros Hfg. revert i. induction l as [|x l IH]; intros [|i]; simpl;
    [done|done|by rewrite Hfg|f_equal; apply IH].
Qed.

Lemma positions_from_app n k keys1 keys2 :
  positions_from n k (keys1 ++ keys2)
  = positions_from n k keys1
      ++ positions_from (n + length keys1) k keys2.
Proof.
  revert n. induction keys1 as [|key keys1 IH]; intros n; simpl.
  - by rewrite Nat.add_0_r.
  - rewrite IH, Nat.add_succ_r. by case_bool_decide.
Qed.

Lemma positions_from_elem n k keys p :
  p ∈ positions_from n k keys →
  (n ≤ p)%nat ∧ keys !! (p - n)%nat = Some (Some k).
Proof.
  revert n. induction keys as [|key keys IH]; intros n; simpl.
  - by intros ?%elem_of_nil.
  - assert (Hrest : p ∈ positions_from (S n) k keys →
                    (n ≤ p)%nat ∧ (key :: keys) !! (p - n)%nat = Some (Some k)).
    { intros [Hle Hp]%IH. split; [lia|].
      replace (p - n)%nat with (S (p - S n)) by lia. done. }
    case_bool_decide as Hkey; [|done].
    intros [->|Hin]%elem_of_cons; [|by apply Hrest].
    split; [done|]. by rewrite Nat.sub_diag, Hkey.
Qed.

Lemma positions_from_NoDup n k keys : NoDup (positions_from n k keys).
Proof.
  revert n. induction keys as [|key keys IH]; intros n; simpl.
  - constructor.
  - case_bool_decide; [|done]. constructor; [|done].
    intros [Hle _]%positions_from_elem. lia.
Qed.

(** *** One lookup *)

Lemma getNextEvent_queue type id r :
  (getNextEvent type id r).1 = head (queue r (type, id)) ∧
  queue (getNextEvent type id r).2 (type, id) = tail (queue r (type, id)) ∧
  (∀ k, k ≠ (type, id) → queue (getNextEvent type id r).2 k = queue r k) ∧
  m_events (getNextEvent type id r).2 = m_events r.
Proof.
  unfold getNextEvent, queue. simpl.
  destruct (m_eventIndex r !! type) as [ids|] eqn:Hids; simpl;
    [|by rewrite Hids].
  destruct (ids !! id) as [[|p events]|] eqn:Hid; simpl;
    rewrite ?Hids; simpl; rewrite ?Hid; try done.
  rewrite lookup_insert_eq. simpl. rewrite lookup_insert_eq.
  repeat split. intros [type' id'] Hne. simpl.
  destruct (decide (type = type')) as [<-|Htype].
  - rewrite lookup_insert_eq, Hids. simpl.
    rewrite lookup_insert_ne by congruence. done.
  - by rewrite lookup_insert_ne.
Qed.

(** The [i]-th request, for key [k], is answered from the queue of [k]
    at the number of earlier requests for [k]. *)
Lemma lookups_queue keys r i k :
  keys !! i = Some k →
  lookups keys r !! i
  = Some (queue r k !! occurrences k (take i keys)).
Proof.
  revert r i. induction keys as [|[type id] keys IH]; intros r i Hi; [done|].
  cbn [lookups fst snd].
  destruct (getNextEvent_queue type id r) as (Hhead & Htail & Hother & _).
  destruct (getNextEvent type id r) as [event r']. simpl in *.
  destruct i as [|i]; simpl in *.
  - injection Hi as <-. by rewrite Hhead, head_lookup.
  - rewrite (IH r' i Hi). f_equal. unfold occurrences.
    rewrite filter_cons. case_decide as Hk; simpl.
    + subst k. by rewrite Htail, lookup_tail.
    + rewrite Hother by done. done.
Qed.

(** *** Building the index *)

Lemma read_attribs_class attribs e :
  ev_class (Event.read_attribs attribs e) = ev_class e.
Proof.
  unfold Event.read_attribs. revert e.
  induction attribs as [|a attribs IH]; intros e; [done|].
  simpl. rewrite IH. by case_bool_decide.
Qed.

Lemma read_class el e : ev_class (Event.read el e) = ev_class e.
Proof.
  unfold Event.read.
  destruct (ev_class e) eqn:Hc; simpl; rewrite ?read_attribs_class; done.
Qed.

Lemma add_event_spec type event r r' :
  add_event type event r = Some r' →
  ∃ id, Event.id event = Some id ∧
    queue r' (type, id) = queue r (type, id) ++ [length (m_events r)] ∧
    (∀ k, k ≠ (type, id) → queue r' k = queue r k) ∧
    event_key <$> m_events r'
    = (event_key <$> m_events r) ++ [event_key event] ∧
    unlinked <$> m_events r'
    = (unlinked <$> m_events r) ++ [unlinked event] ∧
    length (m_events r') = S (length (m_events r)).
Proof.
  unfold add_event. intros Hadd.
  apply bind_Some in Hadd as (id & Hid & [= <-]).
  exists id. split; [done|]. unfold queue. simpl.
  rewrite lookup_insert_eq. simpl. rewrite lookup_insert_eq. simpl.
  split.
  { destruct (m_eventIndex r !! type) as [ids|]; simpl; [done|].
    by rewrite lookup_empty. }
  split.
  { intros [type' id'] Hne. simpl.
    destruct (decide (type = type')) as [<-|Htype].
    - rewrite lookup_insert_eq. simpl.
      rewrite lookup_insert_ne by congruence.
      destruct (m_eventIndex r !! type); simpl; [done|].
      by rewrite lookup_empty.
    - by rewrite lookup_insert_ne. }
  rewrite !fmap_app, length_app. simpl.
  destruct (length (m_events r)) as [|last] eqn:Hlen.
  - repeat split. lia.
  - rewrite (alter_fmap_id event_key), (alter_fmap_id unlinked) by done.
    rewrite length_alter. repeat split; lia.
Qed.

(** Every queue of the index lists the events with its key, oldest
    first. *)
Definition indexed (r : XmlReplay) : Prop :=
  ∀ k, queue r k = positions k (m_events r).

Lemma indexed_empty : indexed empty_replay.
Proof. intros k. unfold queue. simpl. by rewrite lookup_empty. Qed.

Lemma deserializeEvents_indexed s_factories clock xml r r' :
  deserializeEvents s_factories clock xml r = Some r' →
  indexed r →
  indexed r' ∧
  unlinked <$> m_events r'
  = (unlinked <$> m_events r)
      ++ (unlinked <$> recorded_events s_factories clock
                         (length (m_events r)) xml).
Proof.
  revert r. induction xml as [|el xml IH]; intros r Hdes Hidx.
  - injection Hdes as <-. simpl. by rewrite app_nil_r.
  - simpl in Hdes. simpl.
    destruct (createInstance s_factories (el_name el)
                (clock (length (m_events r)))) as [event0|];
      [|by apply IH].
    apply bind_Some in Hdes as (event & Hevent & Hdes).
    apply bind_Some in Hdes as (r1 & Hadd & Hdes).
    unfold Event.deserialize in Hevent.
    apply bind_Some in Hevent as ([] & Hassert & [= <-]).
    unfold Q_ASSERT in Hassert. case_bool_decide as Hname; [|done].
    destruct (add_event_spec _ _ _ _ Hadd)
      as (id & Hid & Hqueue & Hother & Hkeys & Hevents & Hlen).
    assert (Hkey : event_key (Event.read el event0)
                   = Some (el_name el, id)).
    { unfold event_key, Event.tag. rewrite Hid, read_class. simpl.
      by rewrite Hname. }
    destruct (IH r1 Hdes) as [Hidx' Hstream].
    + intros k. unfold positions.
      rewrite Hkeys, positions_from_app, length_fmap. simpl.
      rewrite Hkey. case_bool_decide as Hk.
      * injection Hk as <-. by rewrite Hqueue, Hidx.
      * rewrite app_nil_r. rewrite Hother; [apply Hidx|].
        intros ->. by apply Hk.
    + split; [done|]. rewrite Hstream, Hevents, Hlen, <- app_assoc. done.
Qed.

(** *** Runs of lookups *)

Lemma event_key_unlinked e : event_key (unlinked e) = event_key e.
Proof. done. Qed.

Lemma positions_unlinked k events events' :
  unlinked <$> events = unlinked <$> events' →
  positions k events = positions k events'.
Proof.
  intros Heq. unfold positions. f_equal.
  rewrite <- (list_fmap_ext (event_key ∘ unlinked) event_key events),
          <- (list_fmap_ext (event_key ∘ unlinked) event_key events')
    by done.
  by rewrite !list_fmap_compose, Heq.
Qed.

Lemma occurrences_take_S k keys i :
  keys !! i = Some k →
  occurrences k (take (S i) keys) = S (occurrences k (take i keys)).
Proof.
  intros Hi. unfold occurrences. rewrite (take_S_r _ _ _ Hi).
  rewrite filter_app, length_app, filter_cons, decide_True by done.
  simpl. lia.
Qed.

Lemma occurrences_take_lt k keys i j :
  keys !! i = Some k → (i < j)%nat →
  (occurrences k (take i keys) < occurrences k (take j keys))%nat.
Proof.
  intros Hi Hlt.
  assert (Hsplit : take j keys
                   = take (S i) keys ++ drop (S i) (take j keys)).
  { rewrite <- (take_drop (S i) (take j keys)) at 1.
    rewrite take_take. by replace (S i `min` j)%nat with (S i) by lia. }
  rewrite Hsplit. unfold occurrences at 2.
  rewrite filter_app, length_app.
  fold (occurrences k (take (S i) keys)).
  rewrite (occurrences_take_S _ _ _ Hi). lia.
Qed.

(** Request number [i] is the [n]-th request for key [k]. *)
Definition nth_request (keys : list Key) (k : Key) (n i : nat) : Prop :=
  keys !! i = Some k ∧ occurrences k (take (S i) keys) = n.

(** C1.  For an index built from a stream and any run of lookups, the
    events of the index are those of the stream in stream order; the
    [n]-th lookup for a key returns the [n]-th event of the stream with
    that key, or nothing when the stream has fewer; and no event is
    returned by two lookups. *)
Theorem replay_fifo s_factories clock xml r (keys : list Key) :
  deserializeEvents s_factories clock xml empty_replay = Some r →
  let recorded := recorded_events s_factories clock 0 xml in
  unlinked <$> m_events r = unlinked <$> recorded ∧
  (∀ k n i, nth_request keys k n i →
     (1 ≤ n)%nat ∧
     lookups keys r !! i = Some (positions k recorded !! (n - 1)%nat)) ∧
  (∀ i j p, lookups keys r !! i = Some (Some p) →
            lookups keys r !! j = Some (Some p) → i = j).
Proof.
  intros Hdes recorded.
  destruct (deserializeEvents_indexed _ _ _ _ _ Hdes indexed_empty)
    as [Hidx Hstream].
  simpl in Hstream. fold recorded in Hstream.
  assert (Hlookup : ∀ i k, keys !! i = Some k →
            lookups keys r !! i
            = Some (positions k recorded !! occurrences k (take i keys))).
  { intros i k Hi. rewrite (lookups_queue _ _ _ _ Hi), Hidx.
    by rewrite (positions_unlinked k _ _ Hstream). }
  split; [done|]. split.
  - intros k n i [Hi Hn]. rewrite (occurrences_take_S _ _ _ Hi) in Hn.
    subst n. split; [lia|]. rewrite (Hlookup _ _ Hi). do 2 f_equal. lia.
  - intros i j p Hpi Hpj.
    destruct (keys !! i) as [ki|] eqn:Hi.
    2: { apply lookup_ge_None in Hi. apply lookup_lt_Some in Hpi.
         assert (length (lookups keys r) = length keys); [|lia].
         clear. revert r. induction keys as [|[t d] keys IH]; intros r;
           [done|]. simpl. destruct (getNextEvent t d r). simpl.
         by rewrite IH. }
    destruct (keys !! j) as [kj|] eqn:Hj.
    2: { apply lookup_ge_None in Hj. apply lookup_lt_Some in Hpj.
         assert (length (lookups keys r) = length keys); [|lia].
         clear. revert r. induction keys as [|[t d] keys IH]; intros r;
           [done|]. simpl. destruct (getNextEvent t d r). simpl.
         by rewrite IH. }
    rewrite (Hlookup _ _ Hi) in Hpi. rewrite (Hlookup _ _ Hj) in Hpj.
    injection Hpi as Hpi. injection Hpj as Hpj.
    assert (Hki : (event_key <$> recorded) !! p = Some (Some ki)).
    { apply list_elem_of_lookup_2, positions_from_elem in Hpi as [_ Hp].
      by rewrite Nat.sub_0_r in Hp. }
    assert (Hkj : (event_key <$> recorded) !! p = Some (Some kj)).
    { apply list_elem_of_lookup_2, positions_from_elem in Hpj as [_ Hp].
      by rewrite Nat.sub_0_r in Hp. }
    assert (ki = kj) as <- by congruence.
    pose proof (NoDup_lookup _ _ _ _
                  (positions_from_NoDup 0 ki (event_key <$> recorded))
                  Hpi Hpj) as Hocc.
    destruct (lt_eq_lt_dec i j) as [[Hlt| ->]|Hlt]; [|done|].
    + pose proof (occurrences_take_lt _ _ _ _ Hi Hlt). lia.
    + pose proof (occurrences_take_lt _ _ _ _ Hj Hlt). lia.
Qed.

End ReplayIndex.

(** *** The typed lookup *)

Section TypedLookup.

(** Every queued pointer leads to an event with the key of its queue. *)
Definition sound (r : XmlReplay) : Prop :=
  ∀ k p, p ∈ queue r k → event_key <$> m_events r !! p = Some (Some k).

Lemma indexed_sound r : indexed r → sound r.
Proof.
  intros Hidx k p. rewrite Hidx. unfold positions.
  intros [_ Hp]%positions_from_elem.
  by rewrite Nat.sub_0_r, list_lookup_fmap in Hp.
Qed.

Lemma getNextEvent_sound type id r :
  sound r → sound (getNextEvent type id r).2.
Proof.
  intros Hsound k p.
  destruct (getNextEvent_queue type id r) as (_ & Htail & Hother & ->).
  destruct (decide (k = (type, id))) as [->|Hne].
  - rewrite Htail. intros Hin. apply Hsound.
    destruct (queue r (type, id)); [done|]. by right.
  - rewrite Hother by done. apply Hsound.
Qed.

Lemma TAG_inj c1 c2 : TAG c1 = TAG c2 → c1 = c2.
Proof. destruct c1, c2; done. Qed.

(** On a sound index the [dynamic_cast] of the typed lookup succeeds: it
    returns the event the untyped lookup pops. *)
Lemma getNextEventT_sound T id r :
  sound r →
  getNextEventT T id r
  = ((getNextEvent (TAG T) id r).1 ≫= λ p, m_events r !! p,
     (getNextEvent (TAG T) id r).2).
Proof.
  intros Hsound. unfold getNextEventT.
  destruct (getNextEvent_queue (TAG T) id r) as (Hhead & _ & _ & Hevents).
  destruct (getNextEvent (TAG T) id r) as [[p|] r']; simpl in *; [|done].
  rewrite Hevents. f_equal.
  assert (Hp : p ∈ queue r (TAG T, id)).
  { destruct (queue r (TAG T, id)); [done|]. injection Hhead as ->. by left. }
  apply Hsound in Hp. destruct (m_events r !! p) as [e|]; [|done]. simpl in *.
  injection Hp as Hp. unfold event_key in Hp.
  destruct (Event.id e); [|done]. injection Hp as Htag _.
  apply TAG_inj in Htag. by rewrite bool_decide_eq_true_2.
Qed.

End TypedLookup.

(** A recorded session: an open, a transmission, an element of a later
    format, the same bytes transmitted again, a close. *)
Definition example_stream : list XmlElement :=
  [ mkElement "openConnection"
      [("time", "2020-06-01T12:00:00.000Z"); ("type", "serial");
       ("name", "COM3")] "";
    mkElement "tx" [("time", "2020-06-01T12:00:00.100Z"); ("len", "2")]
      "41 42";
    mkElement "readyRead" [("time", "2020-06-01T12:00:00.150Z")] "";
    mkElement "tx"
      [("time", "2020-06-01T12:00:00.200Z"); ("len", "1"); ("req", "2")]
      "41 42";
    mkElement "closeConnection"
      [("time", "2020-06-01T12:00:01.000Z"); ("type", "serial");
       ("name", "COM3")] "" ].

Definition example_clock : nat → QDateTime :=
  λ _, "2020-06-02T08:30:00.000Z".

Definition example_replay : XmlReplay :=
  default empty_replay
    (deserializeEvents static_event_factories example_clock example_stream
                       empty_replay).

Definition example_requests : list Key :=
  [ ("tx", "41 42"); ("openConnection", "COM3"); ("tx", "41 42");
    ("tx", "41 42") ].

Lemma replay_fifo_witness :
  lookups example_requests example_replay
  = [Some 1; Some 0; Some 2; None]%nat ∧
  let recorded :=
    recorded_events static_event_factories example_clock 0 example_stream in
  unlinked <$> m_events example_replay = unlinked <$> recorded ∧
  (∀ k n i, nth_request example_requests k n i →
     (1 ≤ n)%nat ∧
     lookups example_requests example_replay !! i
     = Some (positions k recorded !! (n - 1)%nat)) ∧
  (∀ i j p, lookups example_requests example_replay !! i = Some (Some p) →
            lookups example_requests example_replay !! j = Some (Some p) →
            i = j).
Proof.
  split; [vm_compute; reflexivity|].
  apply (replay_fifo static_event_factories example_clock example_stream
                     example_replay example_requests).
  vm_compute. reflexivity.
Defined.

(** ** A session recorded and replayed *)

Section Session.

(** One connection over the transport without hardware: open, write the
    two bytes [41 42], close; the results and the final context. *)
Definition session (x : Context)
  : option (bool * Z * Context) :=
  let c := mkConnection "COM3" false tt in
  open "2020-06-01T12:00:00.000Z" c x ≫= λ o : Outcome unit bool,
  write "2020-06-01T12:00:00.100Z" ["A"; "B"]%byte 2 (out_conn o) (out_ctx o)
    ≫= λ w : Outcome unit Z,
  close "2020-06-01T12:00:01.000Z" (out_conn w) (out_ctx w)
    ≫= λ cl : Outcome unit unit,
  Some (out_result o, out_result w, out_ctx cl).

(** The stream a live session leaves in the recorder. *)
Definition recorded_session : list XmlElement :=
  [ mkElement "openConnection"
      [("time", "2020-06-01T12:00:00.000Z"); ("type", "serial");
       ("name", "COM3")] "";
    mkElement "tx" [("time", "2020-06-01T12:00:00.100Z"); ("len", "2")]
      "41 42";
    mkElement "closeConnection"
      [("time", "2020-06-01T12:00:01.000Z"); ("type", "serial");
       ("name", "COM3")] "" ].

Example session_live :
  session (mkContext (Some []) None)
  = Some (true, 2, mkContext (Some recorded_session) None).
Proof. vm_compute. reflexivity. Qed.

(** Replayed from that stream, the session gives the same results and
    uses up the index. *)
Example session_replayed :
  let r := default empty_replay
             (deserializeEvents static_event_factories
                (λ _, "2020-06-02T08:30:00.000Z") recorded_session
                empty_replay) in
  (λ res : bool * Z * Context,
     (res.1, lookups [("openConnection", "COM3"); ("tx", "41 42");
                      ("closeConnection", "COM3")]
                     (default empty_replay (ctx_replay res.2))))
    <$> session (mkContext None (Some r))
  = Some (true, 2, [None; None; None]).
Proof. vm_compute. reflexivity. Qed.

(** A live [bytesAvailable] sets its key in the constructor and again in
    [setValue]: the recorded element carries the attribute twice. *)
Example bytesAvailable_live_recorded :
  (ctx_record ∘ out_ctx) <$>
    bytesAvailable "2020-06-01T12:00:00.000Z" (mkConnection "COM3" true tt)
                   (mkContext (Some []) None)
  = Some (Some [ mkElement "get"
                   [("time", "2020-06-01T12:00:00.000Z");
                    ("bytesAvailable", "0"); ("bytesAvailable", "0")] "" ]).
Proof. vm_compute. reflexivity. Qed.

End Session.


(** * Further properties *)

(** ** The event class registry after static initialisation *)

Lemma registerEventClass_lookup tag c s tag' c' :
  (registerEventClass tag c s).2 !! tag' = Some c' →
  (tag' = tag ∧ c' = c) ∨ s !! tag' = Some c'.
Proof.
  unfold registerEventClass. case_bool_decide; simpl; [by right|].
  intros [[<- <-]|[_ ?]]%lookup_insert_Some; [by left|by right].
Qed.

Lemma static_event_factories_inv tag c :
  static_event_factories !! tag = Some c → tag = TAG c.
Proof.
  unfold static_event_factories, registered_event_classes.
  cbn [fold_left]. intros H.
  repeat (apply registerEventClass_lookup in H as [[-> ->]|H];
          [reflexivity|]).
  by rewrite lookup_empty in H.
Qed.

(** X1.  After static initialisation [createInstance] constructs, for the
    tag of each of the ten event classes, an event of that class, and
    returns null for every other tag. *)
Theorem createInstance_static tag now :
  (∀ c, createInstance static_event_factories (TAG c) now
        = Some (Event.new c now)) ∧
  ((∀ c, tag ≠ TAG c) →
     createInstance static_event_factories tag now = None).
Proof.
  unfold createInstance. split.
  - intros c. by rewrite static_event_factories_lookup.
  - intros Hnone.
    destruct (static_event_factories !! tag) as [c|] eqn:Hc; [|done].
    apply static_event_factories_inv in Hc. by destruct (Hnone c).
Qed.

(** ** The replay parser *)

Section Parser.

(** An element whose name the registry knows. *)
Definition known (s_factories : EventFactories) (el : XmlElement) : Prop :=
  is_Some (s_factories !! el_name el).

Global Instance known_dec s_factories el : Decision (known s_factories el).
Proof. unfold known. apply _. Defined.

(** X2.  Elements with an unregistered name are skipped and change
    nothing: parsing a stream and parsing it without them give the same
    index, or fail alike. *)
Theorem deserializeEvents_skips_unknown s_factories clock xml r :
  deserializeEvents s_factories clock xml r
  = deserializeEvents s_factories clock (filter (known s_factories) xml) r.
Proof.
  revert r. induction xml as [|el xml IH]; intros r; [done|].
  rewrite filter_cons. simpl. unfold createInstance.
  destruct (decide (known s_factories el)) as [[c Hc]|Hunknown].
  - simpl. unfold createInstance. rewrite Hc. simpl.
    destruct (Event.deserialize el _) as [event|]; [|done]. simpl.
    destruct (add_event (el_name el) event r) as [r'|]; [|done]. simpl.
    apply IH.
  - apply eq_None_not_Some in Hunknown. rewrite Hunknown. simpl. apply IH.
Qed.

(** *** What the parser leaves in [m_events] *)

Lemma read_attribs_frame attribs e :
  m_time (Event.read_attribs attribs e) = m_time e ∧
  m_next (Event.read_attribs attribs e) = m_next e ∧
  m_data (Event.read_attribs attribs e) = m_data e.
Proof.
  unfold Event.read_attribs. revert e.
  induction attribs as [|a attribs IH]; intros e; [done|].
  simpl. destruct (IH (if bool_decide (a.1 ≠ "time")
                       then Event.set a.1 a.2 e else e)) as (-> & -> & ->).
  by case_bool_decide.
Qed.

Lemma read_frame el e :
  m_time (Event.read el e) = m_time e ∧ m_next (Event.read el e) = m_next e.
Proof.
  unfold Event.read.
  destruct (read_attribs_frame (el_attrs el) e) as (Ht & Hn & _).
  destruct (ev_class e); simpl; done.
Qed.

Lemma consistent_read el e : consistent e → consistent (Event.read el e).
Proof.
  intros He. unfold Event.read.
  pose proof (consistent_read_attribs (el_attrs el) e He) as Hr.
  destruct (ev_class e); simpl; done.
Qed.

Lemma data_allowed_read el e :
  m_data e = "" → data_allowed (Event.read el e).
Proof.
  intros He. unfold data_allowed. rewrite read_class. unfold Event.read.
  destruct (read_attribs_frame (el_attrs el) e) as (_ & _ & Hd).
  destruct (ev_class e); simpl; rewrite ?Hd, ?He; done.
Qed.

Lemma add_event_events type event r r' :
  add_event type event r = Some r' →
  m_events r'
  = match length (m_events r) with
    | O => m_events r
    | S last => alter (set_next (length (m_events r))) last (m_events r)
    end ++ [event].
Proof.
  unfold add_event. intros Hadd.
  by apply bind_Some in Hadd as (id & _ & [= <-]).
Qed.

Lemma linked_length (f : XmlReplayEvent → XmlReplayEvent) events :
  length (match length events with
          | O => events
          | S last => alter f last events
          end) = length events.
Proof. destruct events; [done|]. simpl length at 1. apply length_alter. Qed.

(** A property of the events by position that the link to the next event
    does not affect and that a freshly read event has, holds of all events
    of the index. *)
Lemma deserializeEvents_events (Q : nat → XmlReplayEvent → Prop)
    s_factories clock xml r r' :
  (∀ p q e, Q p e → Q p (set_next q e)) →
  (∀ n el c, Q n (Event.read el (Event.new c (clock n)))) →
  deserializeEvents s_factories clock xml r = Some r' →
  (∀ p e, m_events r !! p = Some e → Q p e) →
  ∀ p e, m_events r' !! p = Some e → Q p e.
Proof.
  intros Hnext Hnew. revert r.
  induction xml as [|el xml IH]; intros r Hdes Hr.
  - by injection Hdes as <-.
  - simpl in Hdes. unfold createInstance in Hdes.
    destruct (s_factories !! el_name el) as [c|]; simpl in Hdes;
      [|by eapply IH].
    apply bind_Some in Hdes as (event & Hevent & Hdes).
    apply bind_Some in Hdes as (r1 & Hadd & Hdes).
    unfold Event.deserialize in Hevent.
    apply bind_Some in Hevent as ([] & _ & [= <-]).
    apply (IH r1 Hdes). intros p e.
    rewrite (add_event_events _ _ _ _ Hadd).
    pose proof (linked_length (set_next (length (m_events r))) (m_events r))
      as Hl.
    destruct (decide (p < length (m_events r))%nat) as [Hlt|Hge].
    + rewrite lookup_app_l by lia.
      destruct (length (m_events r)) as [|last] eqn:Hlen; [lia|].
      destruct (decide (last = p)) as [->|Hne].
      * rewrite list_lookup_alter_eq.
        destruct (m_events r !! p) as [e0|] eqn:He0; [|done].
        intros [= <-]. apply Hnext, Hr, He0.
      * rewrite list_lookup_alter_ne by done. apply Hr.
    + intros Hp. pose proof (lookup_lt_Some _ _ _ Hp) as Hlen.
      rewrite length_app in Hlen. simpl in Hlen.
      assert (p = length (m_events r)) as -> by lia.
      rewrite lookup_app_r in Hp by lia. rewrite Hl, Nat.sub_diag in Hp.
      injection Hp as <-. apply Hnew.
Qed.

(** X3.  The events of a parsed index carry the time at which the
    parser constructed them: the timestamp of the stream is read and
    dropped. *)
Theorem deserializeEvents_construction_time s_factories clock xml r :
  deserializeEvents s_factories clock xml empty_replay = Some r →
  ∀ p e, m_events r !! p = Some e → m_time e = clock p.
Proof.
  intros Hdes.
  apply (deserializeEvents_events (λ p e, m_time e = clock p)
           _ _ _ _ _ (λ _ _ _ H, H)
           (λ n el c, proj1 (read_frame el (Event.new c (clock n)))) Hdes).
  intros p e Hp. simpl in Hp. by rewrite lookup_nil in Hp.
Qed.

(** X4.  Every event of a parsed index lists exactly the keys that have
    a value, and carries payload text only if its class uses data. *)
Theorem deserializeEvents_well_formed s_factories clock xml r :
  deserializeEvents s_factories clock xml empty_replay = Some r →
  ∀ p e, m_events r !! p = Some e → consistent e ∧ data_allowed e.
Proof.
  intros Hdes.
  apply (deserializeEvents_events (λ _ e, consistent e ∧ data_allowed e)
           _ _ _ _ _ (λ _ _ _ H, H)
           (λ n el c, conj (consistent_read el _ (consistent_new c (clock n)))
                           (data_allowed_read el (Event.new c (clock n))
                                              eq_refl)) Hdes).
  intros p e Hp. simpl in Hp. by rewrite lookup_nil in Hp.
Qed.

(** *** The chain of events *)

(** Every event but the last points to the event behind it. *)
Definition chained (events : list XmlReplayEvent) : Prop :=
  ∀ p e, events !! p = Some e →
    m_next e = if decide (S p < length events)%nat then Some (S p) else None.

Lemma chained_add events event :
  chained events → m_next event = None →
  chained (match length events with
           | O => events
           | S last => alter (set_next (length events)) last events
           end ++ [event]).
Proof.
  intros Hchain Hnone p e.
  pose proof (linked_length (set_next (length events)) events) as Hl.
  rewrite length_app, Hl. simpl.
  destruct (decide (p < length events)%nat) as [Hlt|Hge].
  - rewrite lookup_app_l by lia.
    destruct (length events) as [|last] eqn:Hlen; [lia|].
    destruct (decide (last = p)) as [->|Hne].
    + rewrite list_lookup_alter_eq.
      destruct (events !! p) as [e0|]; [|done]. intros [= <-]. simpl.
      by rewrite decide_True by lia.
    + rewrite list_lookup_alter_ne by done. intros He.
      rewrite (Hchain _ _ He), Hlen.
      rewrite !decide_True by lia. done.
  - intros Hp. pose proof (lookup_lt_Some _ _ _ Hp) as Hlen.
    rewrite length_app, Hl in Hlen. simpl in Hlen.
    assert (p = length events) as -> by lia.
    rewrite lookup_app_r in Hp by lia. rewrite Hl, Nat.sub_diag in Hp.
    injection Hp as <-. by rewrite decide_False by lia.
Qed.

Lemma deserializeEvents_chained s_factories clock xml r r' :
  deserializeEvents s_factories clock xml r = Some r' →
  chained (m_events r) → chained (m_events r').
Proof.
  revert r. induction xml as [|el xml IH]; intros r Hdes Hr.
  - by injection Hdes as <-.
  - simpl in Hdes. unfold createInstance in Hdes.
    destruct (s_factories !! el_name el) as [c|]; simpl in Hdes;
      [|by eapply IH].
    apply bind_Some in Hdes as (event & Hevent & Hdes).
    apply bind_Some in Hdes as (r1 & Hadd & Hdes).
    unfold Event.deserialize in Hevent.
    apply bind_Some in Hevent as ([] & _ & [= <-]).
    apply (IH r1 Hdes). rewrite (add_event_events _ _ _ _ Hadd).
    apply chained_add; [done|]. by rewrite (proj2 (read_frame _ _)).
Qed.

(** X5.  The events of a parsed index form one chain in stream order:
    [m_next] of every event is the event parsed after it, and that of the
    last event is null. *)
Theorem deserializeEvents_chain s_factories clock xml r :
  deserializeEvents s_factories clock xml empty_replay = Some r →
  ∀ p e, m_events r !! p = Some e →
    m_next e = if decide (S p < length (m_events r))%nat
               then Some (S p) else None.
Proof.
  intros Hdes. apply (deserializeEvents_chained _ _ _ _ _ Hdes).
  intros p e Hp. simpl in Hp. by rewrite lookup_nil in Hp.
Qed.

(** *** Streams the parser accepts *)

Lemma read_attribs_keys attribs e :
  m_keys (Event.read_attribs attribs e)
  = m_keys e ++ filter (λ k, k ≠ "time") attribs.*1.
Proof.
  unfold Event.read_attribs. revert e.
  induction attribs as [|a attribs IH]; intros e; simpl.
  - by rewrite app_nil_r.
  - rewrite IH, filter_cons.
    destruct (decide (a.1 ≠ "time")) as [Hne|Heq].
    + rewrite bool_decide_eq_true_2 by done. simpl. by rewrite <- app_assoc.
    + by rewrite bool_decide_eq_false_2 by done.
Qed.

(** A [set] or [get] element names its parameter: it has an attribute
    besides the timestamp. *)
Definition names_parameter (el : XmlElement) : Prop :=
  el_name el = "set" ∨ el_name el = "get" →
  ∃ a, a ∈ el_attrs el ∧ a.1 ≠ "time".

Lemma id_read_static el c now :
  names_parameter el → el_name el = TAG c →
  is_Some (Event.id (Event.read el (Event.new c now))).
Proof.
  intros Hel Hname. unfold Event.id. rewrite read_class. simpl.
  assert (Hkeys : el_name el = "set" ∨ el_name el = "get" →
            is_Some (head (m_keys (Event.read el (Event.new c now))))).
  { intros Hsg. destruct (Hel Hsg) as ([k v] & Hin & Hk).
    assert (m_keys (Event.read el (Event.new c now))
            = filter (λ k, k ≠ "time") (el_attrs el).*1) as ->.
    { unfold Event.read. rewrite Hname in Hsg.
      destruct c; simpl in *;
        try (by destruct Hsg; discriminate);
        by rewrite read_attribs_keys. }
    assert (k ∈ filter (λ k, k ≠ "time") (el_attrs el).*1) as Hkin.
    { apply list_elem_of_filter. split; [done|].
      apply list_elem_of_fmap. by exists (k, v). }
    destruct (filter _ _); [by apply elem_of_nil in Hkin|]. simpl. eauto. }
  destruct c; simpl in *; eauto.
Qed.

(** X6.  With the registry of static initialisation the parser returns
    on every stream in which each [set] and each [get] element has an
    attribute besides the timestamp: no assertion fails and no identity
    is taken from an empty key list. *)
Theorem deserializeEvents_static_returns clock xml r :
  Forall names_parameter xml →
  is_Some (deserializeEvents static_event_factories clock xml r).
Proof.
  intros Hxml. revert r.
  induction Hxml as [|el xml Hel _ IH]; intros r; [by eexists|].
  cbn [deserializeEvents]. unfold createInstance.
  destruct (static_event_factories !! el_name el) as [c|] eqn:Hc;
    cbn [mbind option_bind]; [|apply IH].
  apply static_event_factories_inv in Hc.
  unfold Event.deserialize, Event.tag. cbn [Event.new ev_class].
  rewrite bool_decide_eq_true_2 by exact Hc.
  unfold Q_ASSERT. cbn [mbind option_bind].
  destruct (id_read_static el c (clock (length (m_events r))) Hel Hc)
    as [id Hid].
  unfold add_event. rewrite Hid. cbn [mbind option_bind]. apply IH.
Qed.

End Parser.

Lemma deserializeEvents_static_returns_witness :
  is_Some (deserializeEvents static_event_factories
             (λ _, "2020-06-02T08:30:00.000Z")
             [ mkElement "set"
                 [("time", "2020-06-01T12:00:00.000Z"); ("baudRate", "9600");
                  ("directions", "3")] "";
               mkElement "get"
                 [("time", "2020-06-01T12:00:00.100Z");
                  ("bytesAvailable", "5")] "";
               mkElement "rx"
                 [("time", "2020-06-01T12:00:00.200Z"); ("len", "1")] "0D" ]
             empty_replay).
Proof.
  apply deserializeEvents_static_returns.
  repeat constructor; intros _; eexists; (split; [by right; left|done]).
Defined.

(** The example stream parsed with a clock that counts the events
    constructed, and its second event. *)
Definition tick (n : nat) : QDateTime := QString.number (Z.of_nat n).

Definition ticked_replay : XmlReplay :=
  default empty_replay
    (deserializeEvents static_event_factories tick example_stream
                       empty_replay).

Definition ticked_event : XmlReplayEvent :=
  default (Event.new ConnectionEvent "") (m_events ticked_replay !! 1%nat).

Lemma deserializeEvents_construction_time_witness :
  m_time ticked_event = tick 1.
Proof.
  apply (deserializeEvents_construction_time static_event_factories tick
           example_stream ticked_replay);
    vm_compute; reflexivity.
Defined.

Lemma deserializeEvents_well_formed_witness :
  consistent ticked_event ∧ data_allowed ticked_event.
Proof.
  apply (deserializeEvents_well_formed static_event_factories tick
           example_stream ticked_replay ltac:(vm_compute; reflexivity)
           1%nat ticked_event).
  vm_compute. reflexivity.
Defined.

Lemma deserializeEvents_chain_witness :
  m_next ticked_event
  = if decide (2 < length (m_events ticked_replay))%nat
    then Some 2%nat else None.
Proof.
  apply (deserializeEvents_chain static_event_factories tick
           example_stream ticked_replay ltac:(vm_compute; reflexivity)
           1%nat ticked_event).
  vm_compute. reflexivity.
Defined.


(** ** A log written by the recorder and parsed again *)

Section Log.

(** What an event says: its class, attribute values, key order and
    payload text; not its timestamp or its link. *)
Definition content (e : XmlReplayEvent)
  : EventClass * gmap string string * list string * string :=
  (ev_class e, m_values e, m_keys e, m_data e).




Lemma content_set_next p e : content (set_next p e) = content e.
Proof. done. Qed.




End Log.






(** ** The typed lookup after parsing *)

(** The index after a run of lookups. *)
Fixpoint after_lookups (keys : list Key) (r : XmlReplay) : XmlReplay :=
  match keys with
  | [] => r
  | k :: rest => after_lookups rest (getNextEvent k.1 k.2 r).2
  end.

Lemma after_lookups_sound keys r :
  sound r → sound (after_lookups keys r) ∧
            m_events (after_lookups keys r) = m_events r.
Proof.
  revert r. induction keys as [|k keys IH]; intros r Hsound; [done|].
  simpl. destruct (IH _ (getNextEvent_sound k.1 k.2 r Hsound)) as [Hs He].
  split; [done|]. rewrite He.
  by destruct (getNextEvent_queue k.1 k.2 r) as (_ & _ & _ & ->).
Qed.

(** X8.  On an index built by the parser, also after any run of
    lookups, the typed lookup returns exactly the event the untyped lookup
    pops: the [dynamic_cast] to the requested class never fails. *)
Theorem typed_lookup_after_parse s_factories clock xml r0 keys T id :
  deserializeEvents s_factories clock xml empty_replay = Some r0 →
  let r := after_lookups keys r0 in
  getNextEventT T id r
  = ((getNextEvent (TAG T) id r).1 ≫= λ p, m_events r0 !! p,
     (getNextEvent (TAG T) id r).2).
Proof.
  intros Hdes r.
  destruct (deserializeEvents_indexed _ _ _ _ _ Hdes indexed_empty) as [Hidx _].
  destruct (after_lookups_sound keys r0 (indexed_sound _ Hidx)) as [Hs He].
  fold r in Hs, He. rewrite (getNextEventT_sound T id r Hs). by rewrite He.
Qed.

Lemma typed_lookup_after_parse_witness :
  let r := after_lookups [("tx", "41 42")] example_replay in
  getNextEventT TransmitDataEvent "41 42" r
  = ((getNextEvent "tx" "41 42" r).1 ≫= λ p, m_events example_replay !! p,
     (getNextEvent "tx" "41 42" r).2).
Proof.
  apply (typed_lookup_after_parse static_event_factories example_clock
           example_stream example_replay [("tx", "41 42")]
           TransmitDataEvent "41 42").
  vm_compute. reflexivity.
Defined.

(** ** What an operation does to the replay index and to the transport *)

Lemma getNextEventT_state T id r :
  (getNextEventT T id r).2 = (getNextEvent (TAG T) id r).2.
Proof. unfold getNextEventT. by destruct (getNextEvent (TAG T) id r). Qed.

Lemma getNextEventT_Some T id r e r' :
  getNextEventT T id r = (Some e, r') →
  ev_class e = T ∧ e ∈ m_events r.
Proof.
  unfold getNextEventT.
  destruct (getNextEvent_queue (TAG T) id r) as (_ & _ & _ & Hevents).
  destruct (getNextEvent (TAG T) id r) as [[p|] r1]; simpl in *; [|done].
  intros [= Hp <-]. rewrite Hevents in Hp.
  destruct (m_events r !! p) as [e0|] eqn:He0; simpl in Hp; [|done].
  case_bool_decide; [|done]. injection Hp as <-.
  split; [done|]. by eapply list_elem_of_lookup_2.
Qed.

Section Operations.
Context {Port : Type} `{!Transport Port} `{!Platform}.

(** What a replayed [bytesAvailable] that returns has done. *)
Lemma bytesAvailable_replayed now (c : SerialPortConnection Port) x r out :
  ctx_replay x = Some r →
  bytesAvailable now c x = Some out →
  let lookup := getNextEventT GetValueEvent "bytesAvailable" r in
  let event := Event.copyIf lookup.1 (GetValueEvent_new "bytesAvailable" now) in
  out_result out = default 0 (QString.toLong (value event)) ∧
  out_event out = Some event ∧
  out_conn out = c ∧
  ctx_replay (out_ctx out) = Some lookup.2 ∧
  record (ctx_record x) event = Some (ctx_record (out_ctx out)).
Proof.
  intros Hx. unfold bytesAvailable. rewrite Hx.
  cbn [GetValueEvent_new Event.id Event.set_int Event.set Event.new ev_class
       m_keys app head mbind option_bind].
  destruct (getNextEventT GetValueEvent "bytesAvailable" r) as [e r'].
  cbn [fst snd].
  set (event := Event.copyIf e _).
  destruct (value_warning event); cbn [mbind option_bind]; [|done].
  destruct (QString.toLong (value event)) as [result|];
    [|destruct (Event.id event); cbn [mbind option_bind]; [|done]];
    cbn [mbind option_bind];
    (destruct (record (ctx_record x) event) as [rec|];
     cbn [mbind option_bind]; [|done]);
    by intros [= <-].
Qed.

(** The index an operation leaves is the one it found after one lookup
    of the key [(tag, id)]; without replay there is none before or
    after. *)
Definition pops {R} (tag id : string) (x : Context)
    (res : option (Outcome Port R)) : Prop :=
  ∀ out, res = Some out →
    ctx_replay (out_ctx out) = (λ r, (getNextEvent tag id r).2) <$> ctx_replay x.

Ltac pop_of T id r :=
  let H := fresh in
  pose proof (getNextEventT_state T id r) as H; cbn [TAG] in H;
  rewrite <- H; clear H.

Lemma bool_operation_pops T event id live (c : SerialPortConnection Port) x :
  pops (TAG T) id x (bool_operation T event (Some id) live c x).
Proof.
  intros out. unfold bool_operation. destruct (ctx_replay x) as [r|]; simpl.
  - pop_of T id r.
    destruct (getNextEventT T id r) as [replayEvent r']. simpl.
    intros Hop. by apply bind_Some in Hop as (rec & _ & [= <-]).
  - destruct (live (m_port c)) as [ok port]. simpl.
    intros Hop. by apply bind_Some in Hop as (rec & _ & [= <-]).
Qed.

(** X9.  Every operation consumes from the replay index by one lookup
    of its own key and changes the index in no other way: open and close
    use the connection name, the parameter setters the parameter name,
    [clear] and [flush] and [read] the empty identity, [bytesAvailable]
    its own name, [write] the payload text. *)
Theorem operations_pop_their_key now (c : SerialPortConnection Port) x
    baudRate directions dataBits parity stopBits flowControl maxSize data :
  (m_opened c = false →
     pops "openConnection" (m_name c) x (open now c x)) ∧
  pops "closeConnection" (m_name c) x (close now c x) ∧
  pops "set" "baudRate" x (setBaudRate now baudRate directions c x) ∧
  pops "set" "setDataBits" x (setDataBits now dataBits c x) ∧
  pops "set" "setParity" x (setParity now parity c x) ∧
  pops "set" "setStopBits" x (setStopBits now stopBits c x) ∧
  pops "set" "setFlowControl" x (setFlowControl now flowControl c x) ∧
  pops "clear" "" x (clear now directions c x) ∧
  pops "flush" "" x (flush now c x) ∧
  pops "get" "bytesAvailable" x (bytesAvailable now c x) ∧
  pops "rx" "" x (read now maxSize c x) ∧
  pops "tx" (transmit_id data maxSize) x (write now data maxSize c x).
Proof.
  split; [|split]; [| |repeat split;
    try apply (bool_operation_pops SetValueEvent);
    try apply (bool_operation_pops ClearConnectionEvent);
    try apply (bool_operation_pops FlushConnectionEvent)].
  - intros Hclosed out. unfold open. rewrite Hclosed.
    destruct (ctx_replay x) as [r|]; simpl.
    + pop_of OpenConnectionEvent (m_name c) r.
      destruct (getNextEventT OpenConnectionEvent (m_name c) r) as [e r'].
      intros Hop. by apply bind_Some in Hop as (rec & _ & [= <-]).
    + destruct (port_open _) as [ok port].
      intros Hop. by apply bind_Some in Hop as (rec & _ & [= <-]).
  - intros out. unfold close. destruct (ctx_replay x) as [r|]; simpl.
    + pop_of CloseConnectionEvent (m_name c) r.
      destruct (getNextEventT CloseConnectionEvent (m_name c) r) as [e r'].
      intros Hop. by apply bind_Some in Hop as (rec & _ & [= <-]).
    + intros Hop. by apply bind_Some in Hop as (rec & _ & [= <-]).
  - intros out Hop. destruct (ctx_replay x) as [r|] eqn:Hx; simpl.
    + destruct (bytesAvailable_replayed now c x r out Hx Hop)
        as (_ & _ & _ & -> & _).
      by rewrite getNextEventT_state.
    + unfold bytesAvailable in Hop. rewrite Hx in Hop. simpl in Hop.
      by apply bind_Some in Hop as (rec & _ & [= <-]).
  - intros out. unfold read. destruct (ctx_replay x) as [r|] eqn:Hx; simpl.
    + pop_of ReceiveDataEvent "" r.
      destruct (getNextEventT ReceiveDataEvent "" r) as [e r'].
      by intros [= <-].
    + destruct (port_read maxSize (m_port c)) as [[len buf] port].
      intros Hop. apply bind_Some in Hop as (event & _ & [= <-]). simpl.
      by rewrite Hx.
  - intros out. unfold write, Event.setData. simpl.
    fold (transmit_id data maxSize).
    destruct (ctx_replay x) as [r|]; simpl.
    + pop_of TransmitDataEvent (transmit_id data maxSize) r.
      destruct (getNextEventT TransmitDataEvent _ r) as [e r'].
      simpl. intros Hop. by apply bind_Some in Hop as (rec & _ & [= <-]).
    + destruct (port_write data maxSize (m_port c)) as [len port]. simpl.
      intros Hop. by apply bind_Some in Hop as (rec & _ & [= <-]).
Qed.

End Operations.


(** ** Operations never fail an assertion *)

Lemma data_allowed_copyIf T id r e0 :
  Forall data_allowed (m_events r) →
  ev_class e0 = T → data_allowed e0 →
  data_allowed (Event.copyIf (getNextEventT T id r).1 e0).
Proof.
  intros Hr Hclass He0.
  destruct (getNextEventT T id r) as [[e|] r'] eqn:Hlookup; [|done].
  apply getNextEventT_Some in Hlookup as [He Hin].
  rewrite Forall_forall in Hr. specialize (Hr e Hin).
  unfold data_allowed in *. simpl. intros Hdata.
  rewrite Hclass, <- He. by apply Hr.
Qed.

Lemma toLong_zero `{!Platform} : QString.toLong "0" = Some 0.
Proof.
  unfold QString.toLong. change (QString.toLongLong "0") with (Some 0).
  unfold fits_long, LONG_MIN, LONG_MAX. by destruct long_width.
Qed.

(** What the parser puts into an index: an event that carries payload
    text only if its class uses data, and that has an identity (a set or
    get event has a key). *)
Definition replayable (e : XmlReplayEvent) : Prop :=
  data_allowed e ∧ is_Some (Event.id e).

(** The events of the replay index, if there is one, are such events. *)
Definition replay_allowed (x : Context) : Prop :=
  ∀ r, ctx_replay x = Some r → Forall replayable (m_events r).

Lemma replay_allowed_data x r :
  replay_allowed x → ctx_replay x = Some r →
  Forall data_allowed (m_events r).
Proof.
  intros Hx Hr. eapply Forall_impl; [by apply Hx|]. by intros e [? ?].
Qed.

Section Returns.
Context {Port : Type} `{!Transport Port} `{!Platform}.

Lemma data_allowed_set_int name value e :
  data_allowed e → data_allowed (Event.set_int name value e).
Proof. done. Qed.

Lemma data_allowed_checkResult_bool (port : Port) ok e :
  data_allowed e → data_allowed (checkResult_bool port ok e).
Proof.
  intros He. unfold checkResult_bool.
  destruct (ok && _); [done|]. by destruct ok.
Qed.

Lemma data_allowed_checkResult_len (port : Port) len e :
  data_allowed e → data_allowed (checkResult_len port len e).
Proof. intros He. unfold checkResult_len. by destruct (_ || _). Qed.

Lemma data_allowed_checkError (port : Port) e :
  data_allowed e → data_allowed (checkError port e).
Proof. intros He. unfold checkError. by case_bool_decide. Qed.

Lemma bool_operation_returns T event id live
    (c : SerialPortConnection Port) x :
  replay_allowed x → ev_class event = T → data_allowed event →
  is_Some (bool_operation T event (Some id) live c x).
Proof.
  intros Hx Hclass Hevent. unfold bool_operation.
  destruct (ctx_replay x) as [r|] eqn:Hr; simpl.
  - pose proof (data_allowed_copyIf T id r event
                  (replay_allowed_data x r Hx Hr) Hclass Hevent)
      as Hallowed.
    destruct (getNextEventT T id r) as [replayEvent r']. simpl in *.
    destruct (record_total (ctx_record x) _ Hallowed) as [rec ->]. by eexists.
  - destruct (live (m_port c)) as [ok port]. simpl.
    destruct (record_total (ctx_record x) _
                (data_allowed_checkResult_bool port ok _ Hevent)) as [rec ->].
    by eexists.
Qed.

(** The warning of [get] never fails on an event whose payload text is
    allowed. *)
Lemma get_warning_total name e :
  data_allowed e → Event.get_warning name e = Some tt.
Proof.
  intros He. unfold Event.get_warning. case_bool_decide; [done|].
  by destruct (serialize_total e He) as [el ->].
Qed.

(** The replay branch of [bytesAvailable] on an index of the parser. *)
Lemma bytesAvailable_replay_returns now (c : SerialPortConnection Port) x r :
  replay_allowed x → ctx_replay x = Some r →
  is_Some (bytesAvailable now c x).
Proof.
  intros Hx Hr. unfold bytesAvailable. rewrite Hr.
  cbn [GetValueEvent_new Event.id Event.set_int Event.set Event.new ev_class
       m_keys app head mbind option_bind].
  pose proof (data_allowed_copyIf GetValueEvent "bytesAvailable" r
                (GetValueEvent_new "bytesAvailable" now)
                (replay_allowed_data x r Hx Hr) eq_refl
                ltac:(by apply data_allowed_empty)) as Hallowed.
  destruct (getNextEventT GetValueEvent "bytesAvailable" r)
    as [[e|] r'] eqn:Hlookup; cbn [fst] in Hallowed.
  - apply getNextEventT_Some in Hlookup as [Hclass Hin].
    specialize (Hx r Hr). rewrite Forall_forall in Hx.
    destruct (Hx e Hin) as [_ [k Hid]].
    unfold Event.id in Hid. rewrite Hclass in Hid.
    set (event := Event.copyIf (Some e) _) in *.
    assert (Hkeys : m_keys event = m_keys e) by done.
    assert (Hevent : Event.id event = Some k) by done.
    destruct (m_keys e) as [|first keys] eqn:He; [done|].
    unfold value_warning. rewrite Hkeys.
    rewrite (get_warning_total first event Hallowed).
    cbn [mbind option_bind].
    destruct (QString.toLong (value event)) as [result|];
      [|rewrite Hevent]; cbn [mbind option_bind];
      destruct (record_total (ctx_record x) event Hallowed) as [rec ->];
      by eexists.
  - cbn [Event.copyIf] in *.
    set (event := GetValueEvent_new "bytesAvailable" now) in *.
    change (value_warning _) with (Event.get_warning "bytesAvailable" event).
    rewrite (get_warning_total _ event Hallowed). cbn [mbind option_bind].
    change (value _) with "0". rewrite toLong_zero.
    cbn [mbind option_bind].
    destruct (record_total (ctx_record x) event Hallowed) as [rec ->].
    by eexists.
Qed.

Ltac returns_by H :=
  match goal with
  | |- context [record ?w ?e] =>
      destruct (record_total w e) as [? ->]; [exact H|by eexists]
  end.

(** X10.  With no replay index, or with one whose events are such as
    the parser builds them (payload text only where the class uses data, a
    key on every set and get event), each operation of a connection
    returns: no assertion fails and no identity is taken from an empty key
    list, the warnings of [bytesAvailable] included. *)
Theorem operations_return now (c : SerialPortConnection Port) x
    baudRate directions dataBits parity stopBits flowControl maxSize data :
  replay_allowed x →
  is_Some (open now c x) ∧
  is_Some (close now c x) ∧
  is_Some (setBaudRate now baudRate directions c x) ∧
  is_Some (setDataBits now dataBits c x) ∧
  is_Some (setParity now parity c x) ∧
  is_Some (setStopBits now stopBits c x) ∧
  is_Some (setFlowControl now flowControl c x) ∧
  is_Some (clear now directions c x) ∧
  is_Some (flush now c x) ∧
  is_Some (bytesAvailable now c x) ∧
  is_Some (read now maxSize c x) ∧
  is_Some (write now data maxSize c x).
Proof.
  intros Hx.
  split; [|split]; [| |repeat split;
    try (apply bool_operation_returns;
         [exact Hx|reflexivity|by apply data_allowed_empty])].
  - unfold open. destruct (m_opened c); [by eexists|].
    destruct (ctx_replay x) as [r|] eqn:Hr.
    + pose proof (data_allowed_copyIf OpenConnectionEvent (m_name c) r
                    (ConnectionLifecycleEvent OpenConnectionEvent "serial"
                                              (m_name c) now)
                    (replay_allowed_data x r Hx Hr) eq_refl
                    ltac:(by apply data_allowed_empty))
        as Hallowed.
      destruct (getNextEventT OpenConnectionEvent (m_name c) r)
        as [[e|] r']; [returns_by Hallowed|].
      returns_by (data_allowed_empty
                    (Event.set_int "error" (error_code DeviceNotFoundError)
                       (ConnectionLifecycleEvent OpenConnectionEvent "serial"
                                                 (m_name c) now)) eq_refl).
    + destruct (port_open _) as [ok port].
      returns_by (data_allowed_checkResult_bool port ok
                    (ConnectionLifecycleEvent OpenConnectionEvent "serial"
                                              (m_name c) now)
                    ltac:(by apply data_allowed_empty)).
  - unfold close. destruct (ctx_replay x) as [r|] eqn:Hr.
    + pose proof (data_allowed_copyIf CloseConnectionEvent (m_name c) r
                    (ConnectionLifecycleEvent CloseConnectionEvent "serial"
                                              (m_name c) now)
                    (replay_allowed_data x r Hx Hr) eq_refl
                    ltac:(by apply data_allowed_empty))
        as Hallowed.
      destruct (getNextEventT CloseConnectionEvent (m_name c) r)
        as [[e|] r']; [returns_by Hallowed|].
      returns_by (data_allowed_empty
                    (Event.set_int "error" (error_code ResourceError)
                       (ConnectionLifecycleEvent CloseConnectionEvent "serial"
                                                 (m_name c) now)) eq_refl).
    + returns_by (data_allowed_checkError (port_close (m_port c))
                    (ConnectionLifecycleEvent CloseConnectionEvent "serial"
                                              (m_name c) now)
                    ltac:(by apply data_allowed_empty)).
  - destruct (ctx_replay x) as [r|] eqn:Hr;
      [by eapply bytesAvailable_replay_returns|].
    unfold bytesAvailable. rewrite Hr. cbn [mbind option_bind].
    returns_by (data_allowed_checkResult_len (m_port c)
                  (port_bytesAvailable (m_port c))
                  (setValue (port_bytesAvailable (m_port c))
                            (GetValueEvent_new "bytesAvailable" now))
                  ltac:(by apply data_allowed_empty)).
  - unfold read. destruct (ctx_replay x) as [r|]; simpl.
    + destruct (getNextEventT ReceiveDataEvent "" r). by eexists.
    + destruct (port_read maxSize (m_port c)) as [[len buf] port].
      unfold Event.setData. simpl. destruct (0 <? len); by eexists.
  - unfold write, Event.setData. simpl.
    destruct (ctx_replay x) as [r|]; simpl.
    + destruct (getNextEventT TransmitDataEvent _ r) as [replayEvent r'] eqn:Hl.
      simpl.
      match goal with |- context [record _ ?e] =>
        destruct (record_total (ctx_record x) e) as [rec ->]
      end; [|by eexists].
      apply data_allowed_uses.
      unfold replayed_transfer. by destruct replayEvent.
    + destruct (port_write data maxSize (m_port c)) as [len port]. simpl.
      match goal with |- context [record _ ?e] =>
        destruct (record_total (ctx_record x) e) as [rec ->]
      end; [|by eexists].
      apply data_allowed_checkResult_len.
      by case_bool_decide; apply data_allowed_uses.
Qed.

End Returns.

(** Every event of a parsed index has an identity: the parser took it to
    file the event. *)
Lemma deserializeEvents_identified s_factories clock xml r r' :
  deserializeEvents s_factories clock xml r = Some r' →
  Forall (λ e, is_Some (Event.id e)) (m_events r) →
  Forall (λ e, is_Some (Event.id e)) (m_events r').
Proof.
  assert (Hkey : ∀ events,
             Forall (λ e, is_Some (Event.id e)) events
             ↔ Forall is_Some (event_key <$> events)).
  { intros events. rewrite Forall_fmap. apply Forall_proper; [|done].
    intros e. unfold event_key. simpl.
    destruct (Event.id e) as [i|]; simpl; split; intros [y Hy];
      [by exists (Event.tag e, i)|by exists i|done|done]. }
  revert r. induction xml as [|el xml IH]; intros r Hdes Hr.
  - by injection Hdes as <-.
  - simpl in Hdes.
    destruct (createInstance s_factories (el_name el) _) as [event0|];
      [|by eapply IH].
    apply bind_Some in Hdes as (event & _ & Hdes).
    apply bind_Some in Hdes as (r1 & Hadd & Hdes).
    apply (IH r1 Hdes).
    destruct (add_event_spec _ _ _ _ Hadd) as (id & Hid & _ & _ & Hkeys & _).
    apply Hkey. rewrite Hkeys. apply Forall_app. split; [by apply Hkey|].
    apply Forall_singleton. unfold event_key. rewrite Hid.
    by exists (Event.tag event, id).
Qed.

Lemma deserializeEvents_allowed s_factories clock xml r :
  deserializeEvents s_factories clock xml empty_replay = Some r →
  Forall replayable (m_events r).
Proof.
  intros Hdes. apply Forall_and. split.
  - apply Forall_lookup. intros p e.
    apply (deserializeEvents_events (λ _ e, data_allowed e)
             _ _ _ _ _ (λ _ _ _ H, H)
             (λ n el c, data_allowed_read el (Event.new c (clock n)) eq_refl)
             Hdes).
    intros p' e' Hp. simpl in Hp. by rewrite lookup_nil in Hp.
  - by apply (deserializeEvents_identified _ _ _ _ _ Hdes).
Qed.

(** A log in which the byte count is not a number. *)
Definition counts_stream : list XmlElement :=
  [ mkElement "get" [("time", "2020-06-01T12:00:00.000Z");
                     ("bytesAvailable", "many")] "";
    mkElement "tx" [("time", "2020-06-01T12:00:00.250Z"); ("len", "2")]
              "41 42" ].

Definition counts_replay : XmlReplay :=
  default empty_replay
    (deserializeEvents static_event_factories example_clock counts_stream
                       empty_replay).

Lemma operations_return_witness :
  let c := mkConnection "COM3" true tt in
  let x := mkContext (Some []) (Some counts_replay) in
  let now := "2020-06-02T08:30:00.000Z" in
  is_Some (open now c x) ∧
  is_Some (close now c x) ∧
  is_Some (setBaudRate now 9600 3 c x) ∧
  is_Some (setDataBits now 8 c x) ∧
  is_Some (setParity now 0 c x) ∧
  is_Some (setStopBits now 1 c x) ∧
  is_Some (setFlowControl now 0 c x) ∧
  is_Some (clear now 3 c x) ∧
  is_Some (flush now c x) ∧
  is_Some (bytesAvailable now c x) ∧
  is_Some (read now 2 c x) ∧
  is_Some (write now ["A"; "B"]%byte 2 c x).
Proof.
  intros c x now.
  assert (Hx : replay_allowed x).
  { intros r Hr. apply (inj Some) in Hr. subst r.
    apply (deserializeEvents_allowed static_event_factories example_clock
                                     counts_stream).
    vm_compute. reflexivity. }
  exact (operations_return now c x 9600 3 8 0 1 0 2 ["A"; "B"]%byte Hx).
Defined.

(** On that log [bytesAvailable] takes the warning for a bad value and
    returns 0. *)
Example bytesAvailable_bad_value :
  out_result <$> bytesAvailable "2020-06-02T08:30:00.000Z"
                   (mkConnection "COM3" true tt)
                   (mkContext (Some []) (Some counts_replay))
  = Some 0.
Proof. vm_compute. reflexivity. Qed.

(** A get event without a key, filed by hand under the key of
    [bytesAvailable]: the value is no number and the warning takes
    [m_keys.first()] of the empty list.  The parser files no such event. *)
Example bytesAvailable_keyless :
  let r := mkReplay {[ "get" := {[ "bytesAvailable" := [0%nat] ]} ]}
                    [Event.new GetValueEvent "2020-06-01T12:00:00.000Z"] in
  bytesAvailable "2020-06-02T08:30:00.000Z" (mkConnection "COM3" true tt)
                 (mkContext (Some []) (Some r)) = None.
Proof. vm_compute. reflexivity. Qed.

(** ** Replay without hardware *)

Section ReplayTransport.
Context {Port : Type} `{!Transport Port} `{!Platform}.

(** The port of the connection is the one it had. *)
Definition keeps_port {R} (c : SerialPortConnection Port)
    (res : option (Outcome Port R)) : Prop :=
  ∀ out, res = Some out → m_port (out_conn out) = m_port c.

(** Everything an operation returns and leaves behind, the port apart:
    the result, the outcome event, the name and the opened flag of the
    connection, the recorder and the replay index. *)
Definition observable {R} (out : Outcome Port R)
  : R * option XmlReplayEvent * string * bool * Context :=
  (out_result out, out_event out, m_name (out_conn out),
   m_opened (out_conn out), out_ctx out).

Lemma bool_operation_keeps_port T event id live
    (c : SerialPortConnection Port) x r :
  ctx_replay x = Some r →
  keeps_port c (bool_operation T event id live c x).
Proof.
  intros Hr out. unfold bool_operation. rewrite Hr. intros Hop.
  apply bind_Some in Hop as ([[event' port] replay] & Hlookup & Hop).
  apply bind_Some in Hop as (rec & _ & [= <-]). simpl.
  apply bind_Some in Hlookup as (id' & _ & Hlookup).
  destruct (getNextEventT T id' r). by injection Hlookup as _ <- _.
Qed.

(** With a replay index installed the port is left as it was. *)
Lemma replay_keeps_port now (c : SerialPortConnection Port) x r
    baudRate directions dataBits parity stopBits flowControl maxSize data :
  ctx_replay x = Some r →
  keeps_port c (open now c x) ∧
  keeps_port c (close now c x) ∧
  keeps_port c (setBaudRate now baudRate directions c x) ∧
  keeps_port c (setDataBits now dataBits c x) ∧
  keeps_port c (setParity now parity c x) ∧
  keeps_port c (setStopBits now stopBits c x) ∧
  keeps_port c (setFlowControl now flowControl c x) ∧
  keeps_port c (clear now directions c x) ∧
  keeps_port c (flush now c x) ∧
  keeps_port c (bytesAvailable now c x) ∧
  keeps_port c (read now maxSize c x) ∧
  keeps_port c (write now data maxSize c x).
Proof.
  intros Hr.
  split; [|split]; [| |repeat split;
    try (by eapply bool_operation_keeps_port)].
  - intros out. unfold open. destruct (m_opened c); [by intros [= <-]|].
    rewrite Hr. destruct (getNextEventT _ _ r) as [e r'].
    intros Hop. by apply bind_Some in Hop as (rec & _ & [= <-]).
  - intros out. unfold close. rewrite Hr.
    destruct (getNextEventT _ _ r) as [e r'].
    intros Hop. by apply bind_Some in Hop as (rec & _ & [= <-]).
  - intros out. unfold bytesAvailable. intros Hop.
    apply bind_Some in Hop as ([[result event] replay] & _ & Hop).
    by apply bind_Some in Hop as (rec & _ & [= <-]).
  - intros out. unfold read. rewrite Hr. simpl.
    destruct (getNextEventT _ _ r) as [e r']. by intros [= <-].
  - intros out. unfold write. rewrite Hr. intros Hop.
    apply bind_Some in Hop as (event & _ & Hop).
    apply bind_Some in Hop as ([[[len event'] port] replay] & Hlookup & Hop).
    apply bind_Some in Hop as (rec & _ & [= <-]). simpl.
    apply bind_Some in Hlookup as (id' & _ & Hlookup).
    destruct (getNextEventT _ id' r). by injection Hlookup as _ _ <- _.
Qed.

End ReplayTransport.

Section TwoTransports.
Context {Port Port' : Type} `{!Transport Port} `{!Transport Port'}.
Context `{!Platform}.

(** An operation run on two connections, each with a transport of its
    own, comes to the same thing: it fails on both or returns on both
    with the same observable outcome; and it leaves the port of the first
    as it was. *)
Definition transport_unused {R} (c : SerialPortConnection Port)
    (res : option (Outcome Port R)) (res' : option (Outcome Port' R))
  : Prop :=
  observable <$> res = observable <$> res' ∧ keeps_port c res.

Lemma bool_operation_alike T event id live live'
    (c : SerialPortConnection Port) (c' : SerialPortConnection Port') x r :
  ctx_replay x = Some r →
  m_name c' = m_name c → m_opened c' = m_opened c →
  observable <$> bool_operation T event id live c x
  = observable <$> bool_operation T event id live' c' x.
Proof.
  intros Hr Hname Hopened. unfold bool_operation. rewrite Hr.
  destruct id as [id|]; cbn [mbind option_bind]; [|done].
  destruct (getNextEventT T id r) as [replayEvent r'].
  cbn [mbind option_bind].
  destruct (record (ctx_record x) _) as [rec|]; cbn [mbind option_bind];
    [|done].
  unfold observable. simpl. by rewrite Hname, Hopened.
Qed.

(** X11.  While a replay index is installed the transport plays no part
    in any operation: run with any other transport and any other port,
    the operation fails or returns alike, with the same result, outcome
    event, connection name and opened flag, recorder and replay index;
    and the port is left as it was.  No call changes the port and no
    answer of the transport, those of the queries [bytesAvailable()] and
    [error()] included, reaches the outcome. *)
Theorem replay_leaves_transport now (c : SerialPortConnection Port)
    (c' : SerialPortConnection Port') x r
    baudRate directions dataBits parity stopBits flowControl maxSize data :
  ctx_replay x = Some r →
  m_name c' = m_name c → m_opened c' = m_opened c →
  transport_unused c (open now c x) (open now c' x) ∧
  transport_unused c (close now c x) (close now c' x) ∧
  transport_unused c (setBaudRate now baudRate directions c x)
                     (setBaudRate now baudRate directions c' x) ∧
  transport_unused c (setDataBits now dataBits c x)
                     (setDataBits now dataBits c' x) ∧
  transport_unused c (setParity now parity c x)
                     (setParity now parity c' x) ∧
  transport_unused c (setStopBits now stopBits c x)
                     (setStopBits now stopBits c' x) ∧
  transport_unused c (setFlowControl now flowControl c x)
                     (setFlowControl now flowControl c' x) ∧
  transport_unused c (clear now directions c x) (clear now directions c' x) ∧
  transport_unused c (flush now c x) (flush now c' x) ∧
  transport_unused c (bytesAvailable now c x) (bytesAvailable now c' x) ∧
  transport_unused c (read now maxSize c x) (read now maxSize c' x) ∧
  transport_unused c (write now data maxSize c x)
                     (write now data maxSize c' x).
Proof.
  intros Hr Hname Hopened.
  destruct (replay_keeps_port now c x r baudRate directions dataBits parity
              stopBits flowControl maxSize data Hr)
    as (K1 & K2 & K3 & K4 & K5 & K6 & K7 & K8 & K9 & K10 & K11 & K12).
  unfold transport_unused.
  split; [|split]; [| |repeat split; try assumption;
    try (by apply (bool_operation_alike _ _ _ _ _ c c' x r))].
  - split; [|exact K1]. unfold open. rewrite Hopened, Hname.
    destruct (m_opened c) eqn:Ho;
      [unfold observable; simpl; by rewrite ?Hname, ?Hopened, ?Ho|].
    rewrite Hr. destruct (getNextEventT _ _ r) as [e r'].
    destruct (record (ctx_record x) _) as [rec|]; cbn [mbind option_bind];
      [|done].
    unfold observable. simpl. by rewrite ?Hname, ?Hopened.
  - split; [|exact K2]. unfold close. rewrite Hr, Hname.
    destruct (getNextEventT _ _ r) as [e r'].
    destruct (record (ctx_record x) _) as [rec|]; cbn [mbind option_bind];
      [|done].
    unfold observable. simpl. by rewrite ?Hname, ?Hopened.
  - unfold bytesAvailable. rewrite Hr.
    destruct (Event.id _) as [id|]; cbn [mbind option_bind]; [|done].
    destruct (getNextEventT _ _ r) as [e r'].
    destruct (value_warning _); cbn [mbind option_bind]; [|done].
    destruct (QString.toLong _);
      [|destruct (Event.id _); cbn [mbind option_bind]; [|done]];
      cbn [mbind option_bind];
      (destruct (record (ctx_record x) _) as [rec|];
       cbn [mbind option_bind]; [|done]);
      unfold observable; simpl; by rewrite ?Hname, ?Hopened.
  - unfold read. rewrite Hr.
    destruct (Event.id _) as [id|]; cbn [mbind option_bind]; [|done].
    destruct (getNextEventT _ _ r) as [e r'].
    unfold observable. simpl. by rewrite ?Hname, ?Hopened.
  - unfold write.
    destruct (Event.setData _ _ _) as [event|]; cbn [mbind option_bind];
      [|done].
    rewrite Hr.
    destruct (Event.id _) as [id|]; cbn [mbind option_bind]; [|done].
    destruct (getNextEventT _ _ r) as [e r'].
    cbn [mbind option_bind].
    destruct (record (ctx_record x) _) as [rec|]; cbn [mbind option_bind];
      [|done].
    unfold observable. simpl. by rewrite ?Hname, ?Hopened.
Qed.

End TwoTransports.

(** A transport that fails every call and counts the calls made. *)
Global Instance counting_transport : Transport nat := {|
  port_new := 0%nat;
  port_setPortName := λ _ (p : nat), S p;
  port_open := λ p : nat, (false, S p);
  port_error := λ _ : nat, NotOpenError;
  port_setBaudRate := λ _ _ (p : nat), (false, S p);
  port_setDataBits := λ _ (p : nat), (false, S p);
  port_setParity := λ _ (p : nat), (false, S p);
  port_setStopBits := λ _ (p : nat), (false, S p);
  port_setFlowControl := λ _ (p : nat), (false, S p);
  port_clear := λ _ (p : nat), (false, S p);
  port_bytesAvailable := λ _ : nat, -1;
  port_read := λ _ (p : nat), (-1, [], S p);
  port_write := λ _ _ (p : nat), (-1, S p);
  port_flush := λ p : nat, (false, S p);
  port_close := λ p : nat, S p
|}.

Lemma replay_leaves_transport_witness :
  let c := mkConnection "COM3" false 0%nat in
  let c' := mkConnection "COM3" false tt in
  let x := mkContext None (Some example_replay) in
  let now := "2020-06-02T08:30:00.000Z" in
  transport_unused c (open now c x) (open now c' x) ∧
  transport_unused c (close now c x) (close now c' x) ∧
  transport_unused c (setBaudRate now 9600 3 c x)
                     (setBaudRate now 9600 3 c' x) ∧
  transport_unused c (setDataBits now 8 c x) (setDataBits now 8 c' x) ∧
  transport_unused c (setParity now 0 c x) (setParity now 0 c' x) ∧
  transport_unused c (setStopBits now 1 c x) (setStopBits now 1 c' x) ∧
  transport_unused c (setFlowControl now 0 c x)
                     (setFlowControl now 0 c' x) ∧
  transport_unused c (clear now 3 c x) (clear now 3 c' x) ∧
  transport_unused c (flush now c x) (flush now c' x) ∧
  transport_unused c (bytesAvailable now c x) (bytesAvailable now c' x) ∧
  transport_unused c (read now 2 c x) (read now 2 c' x) ∧
  transport_unused c (write now ["A"; "B"]%byte 2 c x)
                     (write now ["A"; "B"]%byte 2 c' x).
Proof.
  intros c c' x now.
  apply (replay_leaves_transport now c c' x example_replay
           9600 3 8 0 1 0 2 ["A"; "B"]%byte); reflexivity.
Defined.

(** Without a replay index the outcome does depend on the transport:
    the two transports above answer [bytesAvailable] differently. *)
Example bytesAvailable_live_differs :
  let x := mkContext None None in
  let now := "2020-06-02T08:30:00.000Z" in
  out_result <$> bytesAvailable now (mkConnection "COM3" true 0%nat) x
  = Some (-1) ∧
  out_result <$> bytesAvailable now (mkConnection "COM3" true tt) x
  = Some 0.
Proof. split; vm_compute; reflexivity. Qed.


(** ** Live operations *)

Lemma ok_new c now : Event.ok (Event.new c now) = true.
Proof. unfold Event.ok. simpl. by rewrite lookup_empty. Qed.

Lemma ok_set name value e :
  name ≠ "error" → Event.ok (Event.set name value e) = Event.ok e.
Proof. intros Hne. unfold Event.ok. simpl. by rewrite lookup_insert_ne. Qed.

Lemma ok_set_error value e : Event.ok (Event.set "error" value e) = false.
Proof. unfold Event.ok. simpl. by rewrite lookup_insert_eq. Qed.

Section Live.
Context {Port : Type} `{!Transport Port} `{!Platform}.

Lemma ok_checkResult_bool (port : Port) ok e :
  Event.ok e = true →
  Event.ok (checkResult_bool port ok e)
  = ok && bool_decide (port_error port = NoError).
Proof.
  intros He. unfold checkResult_bool, Event.set_int.
  destruct (ok && bool_decide (port_error port = NoError)) eqn:Hok; [done|].
  destruct ok; [rewrite ok_set by done|]; apply ok_set_error.
Qed.

Lemma ok_checkResult_len (port : Port) len e :
  Event.ok e = true →
  Event.ok (checkResult_len port len e)
  = negb ((len <? 0) || bool_decide (port_error port ≠ NoError)).
Proof.
  intros He. unfold checkResult_len, Event.set_int.
  destruct ((len <? 0) || _); [apply ok_set_error|done].
Qed.

(** What a live operation with a boolean result comes to: it returns,
    its result is true exactly when the transport call answered true and
    the port reports no error, and the port is the one the call left. *)
Definition live_outcome (call : bool * Port)
    (res : option (Outcome Port bool)) : Prop :=
  ∃ out, res = Some out ∧
    out_result out = call.1 && bool_decide (port_error call.2 = NoError) ∧
    m_port (out_conn out) = call.2.

Lemma bool_operation_live T event id live (c : SerialPortConnection Port) x :
  ctx_replay x = None → Event.ok event = true → m_data event = "" →
  live_outcome (live (m_port c)) (bool_operation T event id live c x).
Proof.
  intros Hlive Hok Hdata. unfold live_outcome, bool_operation.
  rewrite Hlive. destruct (live (m_port c)) as [ok port]. simpl.
  destruct (record_total (ctx_record x) (checkResult_bool port ok event))
    as [rec ->].
  { by apply data_allowed_checkResult_bool, data_allowed_empty. }
  simpl. eexists. split; [done|]. simpl. by rewrite ok_checkResult_bool.
Qed.

(** X12.  Without a replay index, [open] (on a connection not yet
    opened), the five parameter setters, [clear] and [flush] make their
    transport call and return true exactly when the call answered true
    and the port then reports [NoError]; [open] names the port first. *)
Theorem live_results now (c : SerialPortConnection Port) x
    baudRate directions dataBits parity stopBits flowControl :
  ctx_replay x = None →
  (m_opened c = false →
     live_outcome (port_open (port_setPortName (m_name c) (m_port c)))
                  (open now c x)) ∧
  live_outcome (port_setBaudRate baudRate directions (m_port c))
               (setBaudRate now baudRate directions c x) ∧
  live_outcome (port_setDataBits dataBits (m_port c))
               (setDataBits now dataBits c x) ∧
  live_outcome (port_setParity parity (m_port c))
               (setParity now parity c x) ∧
  live_outcome (port_setStopBits stopBits (m_port c))
               (setStopBits now stopBits c x) ∧
  live_outcome (port_setFlowControl flowControl (m_port c))
               (setFlowControl now flowControl c x) ∧
  live_outcome (port_clear directions (m_port c))
               (clear now directions c x) ∧
  live_outcome (port_flush (m_port c)) (flush now c x).
Proof.
  intros Hlive. split; [|repeat split;
    apply bool_operation_live; try done;
    unfold Event.set_int, SetValueEvent_new, Event.set_int;
    rewrite ?ok_set by done; apply ok_new].
  intros Hclosed. unfold live_outcome, open. rewrite Hclosed, Hlive.
  destruct (port_open _) as [ok port].
  match goal with |- context [record ?w ?e] =>
    destruct (record_total w e) as [rec ->]
  end.
  { by apply data_allowed_checkResult_bool, data_allowed_empty. }
  simpl. eexists. split; [done|]. simpl.
  rewrite ok_checkResult_bool; [done|].
  unfold ConnectionLifecycleEvent. rewrite !ok_set by done. apply ok_new.
Qed.

End Live.

Lemma live_results_witness :
  let c := mkConnection "COM3" false 0%nat in
  let x := mkContext (Some []) None in
  let now := "2020-06-01T12:00:00.000Z" in
  live_outcome (port_open (port_setPortName (m_name c) (m_port c)))
               (open now c x) ∧
  live_outcome (port_setBaudRate 9600 3 (m_port c))
               (setBaudRate now 9600 3 c x) ∧
  live_outcome (port_setDataBits 8 (m_port c)) (setDataBits now 8 c x) ∧
  live_outcome (port_setParity 0 (m_port c)) (setParity now 0 c x) ∧
  live_outcome (port_setStopBits 1 (m_port c)) (setStopBits now 1 c x) ∧
  live_outcome (port_setFlowControl 0 (m_port c))
               (setFlowControl now 0 c x) ∧
  live_outcome (port_clear 3 (m_port c)) (clear now 3 c x) ∧
  live_outcome (port_flush (m_port c)) (flush now c x).
Proof.
  intros c x now.
  destruct (live_results now c x 9600 3 8 0 1 0 eq_refl) as [Hopen Hrest].
  split; [by apply Hopen|exact Hrest].
Defined.

(** ** Live data transfer *)

Section LiveTransfer.
Context {Port : Type} `{!Transport Port} `{!Platform}.

(** The [len], [req] and [error] attributes a live transfer ends with. *)
Definition transfer_attributes (port : Port) (len maxSize : Z)
    (ev : XmlReplayEvent) : Prop :=
  m_values ev !! "len" = Some (QString.number len) ∧
  m_values ev !! "req"
  = (if bool_decide (len ≠ maxSize) then Some (QString.number maxSize)
     else None) ∧
  m_values ev !! "error"
  = (if (len <? 0) || bool_decide (port_error port ≠ NoError)
     then Some (QString.number (error_code (port_error port))) else None).

Lemma transfer_attributes_live (port : Port) len maxSize e :
  m_values e = ∅ →
  transfer_attributes port len maxSize
    (checkResult_len port len
       (if bool_decide (len ≠ maxSize)
        then Event.set_int "req" maxSize (Event.set_int "len" len e)
        else Event.set_int "len" len e)).
Proof.
  intros He. unfold transfer_attributes, checkResult_len, Event.set_int.
  destruct ((len <? 0) || _); case_bool_decide; simpl; rewrite He;
    repeat split; by simplify_map_eq.
Qed.

(** X13.  Without a replay index [write] hands the buffer to the
    transport and returns the length the transport returns; its outcome
    event carries the payload text of the [maxSize] bytes, [len], [req]
    only when fewer bytes were taken than offered, and [error] only when
    the length is negative or the port reports an error; the event is
    appended to the recorder. *)
Theorem write_live now data maxSize (c : SerialPortConnection Port) x :
  ctx_replay x = None →
  let call := port_write data maxSize (m_port c) in
  ∃ out ev el, write now data maxSize c x = Some out ∧
    out_result out = call.1 ∧ m_port (out_conn out) = call.2 ∧
    out_event out = Some ev ∧
    m_data ev = transmit_id data maxSize ∧
    transfer_attributes call.2 call.1 maxSize ev ∧
    Event.serialize ev = Some el ∧
    ctx_record (out_ctx out) = (λ w, w ++ [el]) <$> ctx_record x.
Proof.
  intros Hlive call. unfold write, Event.setData. simpl. rewrite Hlive.
  fold (transmit_id data maxSize). subst call.
  destruct (port_write data maxSize (m_port c)) as [len port]. simpl.
  set (ev := checkResult_len port len _).
  assert (Hclass : ev_class ev = TransmitDataEvent ∧
                   m_data ev = transmit_id data maxSize).
  { unfold ev, checkResult_len, Event.set_int.
    by destruct (_ || _); case_bool_decide. }
  destruct Hclass as [Hclass Hdata].
  destruct (serialize_total ev) as [el Hel].
  { apply data_allowed_uses. by rewrite Hclass. }
  unfold record. rewrite Hel.
  destruct (ctx_record x) as [w|]; simpl;
    (eexists _, ev, el; do 5 (split; [done|]); simpl;
     split; [|done];
     by apply (transfer_attributes_live port len maxSize
                 (mkEvent TransmitDataEvent now None ∅ []
                          (transmit_id data maxSize)))).
Qed.

(** X14.  Without a replay index [read] returns the length and the
    bytes the transport returns; its outcome event carries the payload
    text of the bytes read when the length is positive and none
    otherwise, [len], [req] only when the length differs from the size
    asked for, and [error] only when the length is negative or the port
    reports an error. *)
Theorem read_live now maxSize (c : SerialPortConnection Port) x :
  ctx_replay x = None →
  let call := port_read maxSize (m_port c) in
  ∃ out ev, read now maxSize c x = Some out ∧
    out_result out = call.1 ∧ m_port (out_conn out) = call.2 ∧
    out_event out = Some ev ∧
    m_data ev = (if 0 <? call.1.1 then transmit_id call.1.2 call.1.1 else "") ∧
    transfer_attributes call.2 call.1.1 maxSize ev.
Proof.
  intros Hlive call. unfold read, Event.setData. rewrite Hlive. subst call.
  destruct (port_read maxSize (m_port c)) as [[len buf] port]. simpl.
  destruct (0 <? len); simpl;
    (eexists _, _; do 4 (split; [done|]); simpl; split;
     [by unfold checkResult_len, Event.set_int;
         destruct (_ || _); case_bool_decide
     |by apply (transfer_attributes_live port len maxSize
                  (mkEvent ReceiveDataEvent now None ∅ [] _))]).
Qed.

End LiveTransfer.

Lemma write_live_witness :
  let c := mkConnection "COM3" true tt in
  let x := mkContext (Some []) None in
  let now := "2020-06-01T12:00:00.100Z" in
  let call := port_write ["A"; "B"]%byte 2 (m_port c) in
  ∃ out ev el, write now ["A"; "B"]%byte 2 c x = Some out ∧
    out_result out = call.1 ∧ m_port (out_conn out) = call.2 ∧
    out_event out = Some ev ∧
    m_data ev = transmit_id ["A"; "B"]%byte 2 ∧
    transfer_attributes call.2 call.1 2 ev ∧
    Event.serialize ev = Some el ∧
    ctx_record (out_ctx out) = (λ w, w ++ [el]) <$> ctx_record x.
Proof.
  intros c x now.
  apply (write_live now ["A"; "B"]%byte 2 c x). reflexivity.
Defined.

Lemma read_live_witness :
  let c := mkConnection "COM3" true 0%nat in
  let x := mkContext (Some []) None in
  let now := "2020-06-01T12:00:00.200Z" in
  let call := port_read 16 (m_port c) in
  ∃ out ev, read now 16 c x = Some out ∧
    out_result out = call.1 ∧ m_port (out_conn out) = call.2 ∧
    out_event out = Some ev ∧
    m_data ev = (if 0 <? call.1.1 then transmit_id call.1.2 call.1.1 else "") ∧
    transfer_attributes call.2 call.1.1 16 ev.
Proof.
  intros c x now. apply (read_live now 16 c x). reflexivity.
Defined.

(** ** Replayed operations *)

Section Replayed.
Context {Port : Type} `{!Transport Port} `{!Platform}.

(** The outcome event of a replayed operation: the recorded attributes,
    key order and payload under the time of the call. *)
Definition replayed_event (T : EventClass) (now : QDateTime)
    (e : XmlReplayEvent) : XmlReplayEvent :=
  mkEvent T now None (m_values e) (m_keys e) (m_data e).

(** X15.  When the lookup of a replayed [read] or [write] finds a
    recorded event, the call returns the number in its [len] attribute,
    or -1 when that is missing or not a number; the outcome event is the
    recorded one under the time of the call.  A replayed [read] takes the
    next [rx] event whatever size is asked for and stores no byte into the
    caller's buffer. *)
Theorem transfer_replayed now data maxSize (c : SerialPortConnection Port)
    x r e r' :
  ctx_replay x = Some r →
  (getNextEventT ReceiveDataEvent "" r = (Some e, r') →
     read now maxSize c x
     = Some (mkOutcome
               (default (-1) (QString.toLong (Event.get "len" e)), [])
               (Some (replayed_event ReceiveDataEvent now e)) c
               (mkContext (ctx_record x) (Some r')))) ∧
  (getNextEventT TransmitDataEvent (transmit_id data maxSize) r
   = (Some e, r') →
     ∃ out, write now data maxSize c x = Some out ∧
       out_result out = default (-1) (QString.toLong (Event.get "len" e)) ∧
       out_event out = Some (replayed_event TransmitDataEvent now e) ∧
       out_conn out = c ∧ ctx_replay (out_ctx out) = Some r').
Proof.
  intros Hr. split; intros Hlookup.
  - unfold read. rewrite Hr. simpl. by rewrite Hlookup.
  - unfold write, Event.setData. simpl. rewrite Hr. simpl.
    fold (transmit_id data maxSize). rewrite Hlookup. simpl.
    match goal with |- context [record ?w ?ev] =>
      destruct (record_total w ev) as [rec ->]
    end; [by apply data_allowed_uses|].
    simpl. eexists. repeat split. by destruct c.
Qed.

(** What a replayed operation with a boolean result comes to when its
    lookup finds a recorded event free of misplaced payload: it returns
    whether that event has no [error] attribute. *)
Definition replays (T : EventClass) (id : string) (now : QDateTime)
    (r : XmlReplay) (c : SerialPortConnection Port)
    (res : option (Outcome Port bool)) : Prop :=
  ∀ e r', getNextEventT T id r = (Some e, r') → data_allowed e →
    ∃ out, res = Some out ∧ out_result out = Event.ok e ∧
      out_event out = Some (replayed_event T now e) ∧
      m_port (out_conn out) = m_port c ∧
      ctx_replay (out_ctx out) = Some r'.

Lemma bool_operation_replays T event id live now
    (c : SerialPortConnection Port) x r :
  ctx_replay x = Some r → ev_class event = T → m_time event = now →
  m_next event = None →
  replays T id now r c (bool_operation T event (Some id) live c x).
Proof.
  intros Hr Hclass Htime Hnext e r' Hlookup He. unfold bool_operation.
  rewrite Hr. cbn [mbind option_bind]. rewrite Hlookup.
  cbn [mbind option_bind].
  assert (Event.copyIf (Some e) event = replayed_event T now e) as ->
    by (unfold replayed_event; simpl; by rewrite Hclass, Htime, Hnext).
  destruct (record_total (ctx_record x) (replayed_event T now e)) as [rec ->].
  { apply getNextEventT_Some in Hlookup as [<- _]. exact He. }
  simpl. eexists. repeat split.
Qed.

(** X16.  When the lookup of a replayed [open], parameter setter,
    [clear] or [flush] finds a recorded event, the call returns true
    exactly when that event has no [error] attribute, whatever arguments
    it was called with; its outcome event is the recorded one under the
    time of the call. *)
Theorem results_replayed now (c : SerialPortConnection Port) x r
    baudRate directions dataBits parity stopBits flowControl :
  ctx_replay x = Some r →
  (m_opened c = false →
     replays OpenConnectionEvent (m_name c) now r c (open now c x)) ∧
  replays SetValueEvent "baudRate" now r c
          (setBaudRate now baudRate directions c x) ∧
  replays SetValueEvent "setDataBits" now r c (setDataBits now dataBits c x) ∧
  replays SetValueEvent "setParity" now r c (setParity now parity c x) ∧
  replays SetValueEvent "setStopBits" now r c (setStopBits now stopBits c x) ∧
  replays SetValueEvent "setFlowControl" now r c
          (setFlowControl now flowControl c x) ∧
  replays ClearConnectionEvent "" now r c (clear now directions c x) ∧
  replays FlushConnectionEvent "" now r c (flush now c x).
Proof.
  intros Hr. split; [|repeat split; by apply bool_operation_replays].
  intros Hclosed e r' Hlookup He. unfold open.
  rewrite Hclosed, Hr, Hlookup.
  match goal with |- context [record ?w ?ev] =>
    destruct (record_total w ev) as [rec ->]
  end.
  { apply getNextEventT_Some in Hlookup as [Hclass _].
    intros Hd. specialize (He Hd). rewrite Hclass in He. exact He. }
  simpl. eexists. repeat split.
Qed.

(** X17.  When the index holds no event for their key, the parameter
    setters, [clear] and [flush] return true and [bytesAvailable] returns
    0: the proposed event is left as constructed, without an [error]
    attribute. *)
Theorem exhaustion_reports_success now (c : SerialPortConnection Port) x r
    baudRate directions dataBits parity stopBits flowControl :
  ctx_replay x = Some r →
  ((getNextEvent "set" "baudRate" r).1 = None →
     out_result <$> setBaudRate now baudRate directions c x = Some true) ∧
  ((getNextEvent "set" "setDataBits" r).1 = None →
     out_result <$> setDataBits now dataBits c x = Some true) ∧
  ((getNextEvent "set" "setParity" r).1 = None →
     out_result <$> setParity now parity c x = Some true) ∧
  ((getNextEvent "set" "setStopBits" r).1 = None →
     out_result <$> setStopBits now stopBits c x = Some true) ∧
  ((getNextEvent "set" "setFlowControl" r).1 = None →
     out_result <$> setFlowControl now flowControl c x = Some true) ∧
  ((getNextEvent "clear" "" r).1 = None →
     out_result <$> clear now directions c x = Some true) ∧
  ((getNextEvent "flush" "" r).1 = None →
     out_result <$> flush now c x = Some true) ∧
  ((getNextEvent "get" "bytesAvailable" r).1 = None →
     out_result <$> bytesAvailable now c x = Some 0).
Proof.
  intros Hr.
  assert (Hbool : ∀ T event id live,
            Event.ok event = true → m_data event = "" →
            (getNextEvent (TAG T) id r).1 = None →
            out_result <$> bool_operation T event (Some id) live c x
            = Some true).
  { intros T event id live Hok Hdata Hnone. unfold bool_operation.
    rewrite Hr. simpl. rewrite (getNextEventT_none T id r Hnone). simpl.
    destruct (record_total (ctx_record x) event) as [rec ->];
      [by apply data_allowed_empty|].
    simpl. by rewrite Hok. }
  repeat split;
    try (apply (Hbool SetValueEvent) || apply (Hbool ClearConnectionEvent)
         || apply (Hbool FlushConnectionEvent); try done;
         unfold Event.set_int, SetValueEvent_new, Event.set_int;
         rewrite ?ok_set by done; apply ok_new).
  intros Hnone. unfold bytesAvailable. rewrite Hr.
  cbn [GetValueEvent_new Event.id Event.set_int Event.set Event.new ev_class
       m_keys app head mbind option_bind].
  rewrite (getNextEventT_none GetValueEvent "bytesAvailable" r Hnone).
  cbn [Event.copyIf].
  set (event := GetValueEvent_new "bytesAvailable" now).
  assert (Hevent : data_allowed event) by (by apply data_allowed_empty).
  change (value_warning event)
    with (Event.get_warning "bytesAvailable" event).
  rewrite (get_warning_total _ event Hevent). cbn [mbind option_bind].
  change (value event) with "0". rewrite toLong_zero.
  cbn [mbind option_bind].
  destruct (record_total (ctx_record x) event Hevent) as [rec ->].
  reflexivity.
Qed.

(** X18.  A connection that [open] has opened stays opened through
    [close]: every later [open] on it, also after [close], returns false
    without building an event. *)
Theorem open_once now now' now'' (c : SerialPortConnection Port) x o cl :
  open now c x = Some o → out_result o = true →
  close now' (out_conn o) (out_ctx o) = Some cl →
  open now'' (out_conn cl) (out_ctx cl)
  = Some (mkOutcome false None (out_conn cl) (out_ctx cl)).
Proof.
  intros Hopen Hres Hclose.
  assert (Hopened : m_opened (out_conn o) = true).
  { unfold open in Hopen. destruct (m_opened c) eqn:Hc.
    - injection Hopen as <-. done.
    - destruct (match ctx_replay x with None => _ | Some r => _ end)
        as [[event port] replay].
      apply bind_Some in Hopen as (rec & _ & [= <-]). exact Hres. }
  assert (Hstill : m_opened (out_conn cl) = true).
  { unfold close in Hclose.
    destruct (match ctx_replay (out_ctx o) with None => _ | Some r => _ end)
      as [[event port] replay].
    apply bind_Some in Hclose as (rec & _ & [= <-]). exact Hopened. }
  unfold open. by rewrite Hstill.
Qed.

End Replayed.

(** The second element of the example stream as the typed lookup
    returns it, and the index that lookup leaves. *)
Definition example_transmission : XmlReplayEvent :=
  default (Event.new TransmitDataEvent "")
          (getNextEventT TransmitDataEvent "41 42" example_replay).1.

Definition example_replay_after_transmission : XmlReplay :=
  (getNextEventT TransmitDataEvent "41 42" example_replay).2.

Lemma transfer_replayed_witness :
  let c := mkConnection "COM3" true tt in
  let x := mkContext None (Some example_replay) in
  ∃ out, write "2020-06-02T08:30:00.000Z" ["A"; "B"]%byte 2 c x = Some out ∧
    out_result out = 2 ∧ out_conn out = c ∧
    ctx_replay (out_ctx out) = Some example_replay_after_transmission.
Proof.
  intros c x.
  destruct (transfer_replayed "2020-06-02T08:30:00.000Z" ["A"; "B"]%byte 2
              c x example_replay example_transmission
              example_replay_after_transmission eq_refl) as [_ Hwrite].
  destruct Hwrite as (out & Hout & Hres & _ & Hconn & Hreplay).
  { vm_compute. reflexivity. }
  exists out. split; [exact Hout|]. split; [|by split].
  rewrite Hres. vm_compute. reflexivity.
Defined.

Definition example_opening : XmlReplayEvent :=
  default (Event.new OpenConnectionEvent "")
          (getNextEventT OpenConnectionEvent "COM3" example_replay).1.

Definition example_replay_after_opening : XmlReplay :=
  (getNextEventT OpenConnectionEvent "COM3" example_replay).2.

Lemma results_replayed_witness :
  let c := mkConnection "COM3" false tt in
  let x := mkContext None (Some example_replay) in
  ∃ out, open "2020-06-02T08:30:00.000Z" c x = Some out ∧
    out_result out = true ∧
    ctx_replay (out_ctx out) = Some example_replay_after_opening.
Proof.
  intros c x.
  destruct (results_replayed "2020-06-02T08:30:00.000Z" c x example_replay
              9600 3 8 0 1 0 eq_refl) as [Hopen _].
  destruct (Hopen eq_refl example_opening example_replay_after_opening)
    as (out & Hout & Hres & _ & _ & Hreplay).
  { vm_compute. reflexivity. }
  { by apply data_allowed_empty. }
  exists out. split; [exact Hout|]. split; [|exact Hreplay].
  rewrite Hres. vm_compute. reflexivity.
Defined.

Lemma exhaustion_reports_success_witness :
  let c := mkConnection "COM3" true tt in
  let x := mkContext (Some []) (Some empty_replay) in
  let now := "2020-06-02T08:30:00.000Z" in
  out_result <$> setBaudRate now 9600 3 c x = Some true ∧
  out_result <$> setDataBits now 8 c x = Some true ∧
  out_result <$> setParity now 0 c x = Some true ∧
  out_result <$> setStopBits now 1 c x = Some true ∧
  out_result <$> setFlowControl now 0 c x = Some true ∧
  out_result <$> clear now 3 c x = Some true ∧
  out_result <$> flush now c x = Some true ∧
  out_result <$> bytesAvailable now c x = Some 0.
Proof.
  intros c x now.
  destruct (exhaustion_reports_success now c x empty_replay 9600 3 8 0 1 0
              eq_refl) as (H1 & H2 & H3 & H4 & H5 & H6 & H7 & H8).
  split; [apply H1; reflexivity|]. split; [apply H2; reflexivity|].
  split; [apply H3; reflexivity|]. split; [apply H4; reflexivity|].
  split; [apply H5; reflexivity|]. split; [apply H6; reflexivity|].
  split; [apply H7; reflexivity|]. apply H8; reflexivity.
Defined.

Lemma open_once_witness :
  let c := mkConnection "COM3" false tt in
  let x := mkContext (Some []) None in
  let o := default (mkOutcome false None c x)
                   (open "2020-06-01T12:00:00.000Z" c x) in
  let cl := default (mkOutcome tt None c x)
                    (close "2020-06-01T12:00:01.000Z" (out_conn o)
                           (out_ctx o)) in
  out_result o = true ∧
  open "2020-06-01T12:00:02.000Z" (out_conn cl) (out_ctx cl)
  = Some (mkOutcome false None (out_conn cl) (out_ctx cl)).
Proof.
  intros c x o cl. split; [reflexivity|].
  apply (open_once "2020-06-01T12:00:00.000Z" "2020-06-01T12:00:01.000Z"
                   "2020-06-01T12:00:02.000Z" c x o cl); reflexivity.
Defined.


(** * The replay document and the legacy serial port *)

(** ** The document around the events

    What [QXmlStreamReader] delivers to [XmlReplay::deserialize]: the name
    of the root element and the children of the root, each with the
    elements it holds. *)

Record XmlSection := mkSection {
  sec_name : string;
  sec_children : list XmlElement
}.

Record XmlDocument := mkDocument {
  doc_root : string;
  doc_sections : list XmlSection
}.

(** The inner loop of [XmlReplay::deserialize] over the children of the
    root. *)
Fixpoint deserialize_sections (s_factories : EventFactories)
    (clock : nat → QDateTime) (sections : list XmlSection) (r : XmlReplay)
  : option XmlReplay :=
  match sections with
  | [] => Some r
  | section :: rest =>
      if bool_decide (sec_name section = "events")
      then r' ← deserializeEvents s_factories clock (sec_children section) r;
           deserialize_sections s_factories clock rest r'
      else deserialize_sections s_factories clock rest r
  end.

(** [XmlReplay::deserialize]; [None] is an input without any element. *)
Definition deserialize (s_factories : EventFactories)
    (clock : nat → QDateTime) (xml : option XmlDocument) (r : XmlReplay)
  : option XmlReplay :=
  match xml with
  | Some doc =>
      if bool_decide (doc_root doc = "xmlreplay")
      then deserialize_sections s_factories clock (doc_sections doc) r
      else Some r
  | None => Some r
  end.

Section Document.

Lemma deserializeEvents_app s_factories clock xml1 xml2 r :
  deserializeEvents s_factories clock (xml1 ++ xml2) r
  = deserializeEvents s_factories clock xml1 r
      ≫= deserializeEvents s_factories clock xml2.
Proof.
  revert r. induction xml1 as [|el xml1 IH]; intros r; [done|].
  simpl. destruct (createInstance _ _ _) as [event0|]; [|apply IH].
  destruct (Event.deserialize el event0) as [event|]; [|done]. simpl.
  destruct (add_event (el_name el) event r) as [r'|]; [|done]. simpl.
  apply IH.
Qed.

(** The elements of the [events] containers of a document, in order. *)
Definition document_events (doc : XmlDocument) : list XmlElement :=
  concat (sec_children <$>
            filter (λ s, sec_name s = "events") (doc_sections doc)).

(** X19.  [deserialize] parses exactly the elements of the [events]
    containers of an [xmlreplay] document, in document order and into
    one index, skipping every other child of the root; a document with
    another root, or no element at all, leaves the index as it was. *)
Theorem deserialize_document s_factories clock doc r :
  (doc_root doc = "xmlreplay" →
     deserialize s_factories clock (Some doc) r
     = deserializeEvents s_factories clock (document_events doc) r) ∧
  (doc_root doc ≠ "xmlreplay" →
     deserialize s_factories clock (Some doc) r = Some r) ∧
  deserialize s_factories clock None r = Some r.
Proof.
  assert (Hsections : ∀ sections r,
            deserialize_sections s_factories clock sections r
            = deserializeEvents s_factories clock
                (concat (sec_children <$>
                           filter (λ s, sec_name s = "events") sections)) r).
  { induction sections as [|s sections IH]; intros r0; [done|].
    simpl. rewrite filter_cons. case_bool_decide as Hs.
    - rewrite decide_True by done. simpl. rewrite deserializeEvents_app.
      destruct (deserializeEvents s_factories clock (sec_children s) r0);
        simpl; [apply IH|done].
    - rewrite decide_False by done. apply IH. }
  unfold deserialize. split; [|split].
  - intros ->. rewrite bool_decide_eq_true_2 by done. apply Hsections.
  - intros Hroot. by rewrite bool_decide_eq_false_2.
  - done.
Qed.

End Document.

(** ** SerialPort legacy class *)

(** The legacy facade: the connection it owns, null until opened, and the
    port name. *)
Record SerialPort := mkSerialPort {
  m_conn : option nat;
  m_portName : string
}.

(** [QIODevice::ReadWrite]. *)
Definition ReadWrite : Z := 3.

Section SerialPort.
Context {Port : Type} `{!Transport Port} `{!Platform}.

(** [SerialPort::setPortName(name)]. *)
Definition SerialPort_setPortName (name : string) (sp : SerialPort)
  : SerialPort :=
  mkSerialPort (m_conn sp) name.

(** [DeviceConnectionManager::openSerialPortConnection(portName)]:
    [openConnection] with [SerialPortConnection::TYPE]. *)
Definition openSerialPortConnection
    (s_factories : ConnectionFactories Port) (now later : QDateTime)
    (portName : string) (mgr : DeviceConnectionManager) (mem : Memory Port)
  : option (option nat * DeviceConnectionManager * Memory Port) :=
  openConnection s_factories now later "serial" portName mgr mem.

(** [SerialPort::open(mode)]. *)
Definition SerialPort_open (s_factories : ConnectionFactories Port)
    (now later : QDateTime) (mode : Z) (sp : SerialPort)
    (mgr : DeviceConnectionManager) (mem : Memory Port)
  : option (bool * SerialPort * DeviceConnectionManager * Memory Port) :=
  _ ← Q_ASSERT (bool_decide (m_conn sp = None));
  _ ← Q_ASSERT (bool_decide (mode = ReadWrite));
  '(conn, mgr, mem) ←
    openSerialPortConnection s_factories now later (m_portName sp) mgr mem;
  Some (bool_decide (conn ≠ None), mkSerialPort conn (m_portName sp),
        mgr, mem).

(** [SerialPort::close()]: deleting the connection closes it. *)
Definition SerialPort_close (now : QDateTime) (sp : SerialPort)
    (mgr : DeviceConnectionManager) (mem : Memory Port)
  : option (SerialPort * DeviceConnectionManager * Memory Port) :=
  match m_conn sp with
  | None => None
  | Some conn =>
      '(mgr, mem) ← delete_connection now conn mgr mem;
      Some (mkSerialPort None (m_portName sp), mgr, mem)
  end.

Lemma open_name now (c : SerialPortConnection Port) x out :
  open now c x = Some out → m_name (out_conn out) = m_name c.
Proof.
  unfold open. destruct (m_opened c); [by intros [= <-]|].
  destruct (match ctx_replay x with None => _ | Some r => _ end)
    as [[event port] replay].
  intros Hop. by apply bind_Some in Hop as (rec & _ & [= <-]).
Qed.

Lemma static_connection_factories_lookup type
    (factory : FactoryMethod Port) :
  static_connection_factories !! type = Some factory →
  type = "serial" ∧ factory = SerialPortConnection_createInstance.
Proof.
  unfold static_connection_factories, registerClass.
  rewrite bool_decide_eq_false_2
    by (rewrite lookup_empty; by intros [? ?]).
  cbn [snd]. intros [[<- <-] | [_ Hempty]]%lookup_insert_Some; [done|].
  by rewrite lookup_empty in Hempty.
Qed.

(** X20.  After static initialisation, when [SerialPort::open] has
    succeeded and [SerialPort::close] returns, the facade holds no
    connection, the connection is freed and the manager's map of open
    connections is what it was before the open: the name is free
    again. *)
Theorem SerialPort_open_close now later now' mode sp mgr (mem : Memory Port)
    sp1 mgr1 mem1 sp2 mgr2 mem2 :
  SerialPort_open static_connection_factories now later mode sp mgr mem
  = Some (true, sp1, mgr1, mem1) →
  SerialPort_close now' sp1 mgr1 mem1 = Some (sp2, mgr2, mem2) →
  m_connections mgr !! m_portName sp = None ∧
  is_Some (m_connections mgr1 !! m_portName sp) ∧
  m_conn sp2 = None ∧
  m_connections mgr2 = m_connections mgr ∧
  mem2 = mem.
Proof.
  unfold SerialPort_open, openSerialPortConnection, openConnection.
  intros Hopen Hclose.
  apply bind_Some in Hopen as ([] & _ & Hopen).
  apply bind_Some in Hopen as ([] & _ & Hopen).
  apply bind_Some in Hopen as ([[conn mgr'] mem'] & Hconn & Hopen).
  injection Hopen as Hsome <- <- <-.
  assert (Hconn_some : conn ≠ None) by (by case_bool_decide).
  destruct (static_connection_factories !! "serial") as [factory|] eqn:Hf.
  2: { by injection Hconn as <- _ _. }
  apply static_connection_factories_lookup in Hf as [_ ->].
  destruct (decide (is_Some (m_connections mgr !! m_portName sp)))
    as [Hname|Hname].
  { rewrite bool_decide_eq_true_2 in Hconn by done.
    by injection Hconn as <- _ _. }
  rewrite bool_decide_eq_false_2 in Hconn by done.
  apply eq_None_not_Some in Hname.
  simpl in Hconn. apply bind_Some in Hconn as (out & Hout & Hconn).
  pose proof (λ H, open_result_is_opened _ _ _ _ H Hout) as Hopened.
  specialize (Hopened eq_refl).
  pose proof (open_name _ _ _ _ Hout) as Honame. simpl in Honame.
  set (p := fresh (dom mem)) in *.
  assert (Hp : mem !! p = None) by (apply not_elem_of_dom, is_fresh).
  destruct (out_result out) eqn:Hres.
  2: { by apply bind_Some in Hconn as ([mgr0 mem0] & _ & [= <- _ _]). }
  injection Hconn as <- <- <-.
  unfold SerialPort_close in Hclose. simpl in Hclose.
  apply bind_Some in Hclose as ([mgr0 mem0] & Hdelete & [= <- <- <-]).
  unfold delete_connection in Hdelete.
  rewrite lookup_insert_eq in Hdelete. simpl in Hdelete.
  rewrite Hopened in Hdelete.
  apply bind_Some in Hdelete as (mgr3 & Hclosed & [= <- <-]).
  apply bind_Some in Hclosed as (cl & _ & [= <-]).
  unfold connectionClosed. simpl. rewrite Honame.
  rewrite (lookup_insert_eq (m_connections mgr)).
  rewrite bool_decide_eq_true_2 by done. simpl.
  rewrite !delete_insert_id by done.
  repeat split; eauto.
Qed.

End SerialPort.

(** A facade for port COM3 over the transport without hardware, opened
    and closed while recording. *)
Definition example_port : SerialPort := mkSerialPort None "COM3".

Definition example_manager : DeviceConnectionManager :=
  mkManager (Some []) None ∅.

Definition example_opened
  : bool * SerialPort * DeviceConnectionManager * Memory unit :=
  default (false, example_port, example_manager, ∅)
    (SerialPort_open static_connection_factories
       "2020-06-01T12:00:00.000Z" "2020-06-01T12:00:00.001Z" ReadWrite
       example_port example_manager ∅).

Definition example_closed
  : SerialPort * DeviceConnectionManager * Memory unit :=
  default (example_port, example_manager, ∅)
    (SerialPort_close "2020-06-01T12:00:01.000Z"
       example_opened.1.1.2 example_opened.1.2 example_opened.2).

Lemma SerialPort_open_close_witness :
  m_connections example_manager !! m_portName example_port = None ∧
  is_Some (m_connections example_opened.1.2 !! m_portName example_port) ∧
  m_conn example_closed.1.1 = None ∧
  m_connections example_closed.1.2 = m_connections example_manager ∧
  example_closed.2 = ∅.
Proof.
  apply (SerialPort_open_close (Port := unit)
           "2020-06-01T12:00:00.000Z" "2020-06-01T12:00:00.001Z"
           "2020-06-01T12:00:01.000Z" ReadWrite
           example_port example_manager ∅
           example_opened.1.1.2 example_opened.1.2 example_opened.2
           example_closed.1.1 example_closed.1.2 example_closed.2);
    vm_compute; reflexivity.
Defined.


(** ** Numbers written and read back *)

(** No character of the string is white space or a plus sign. *)
Fixpoint plain (s : string) : bool :=
  match s with
  | EmptyString => true
  | String c s' =>
      negb (QString.isSpace c) && negb (Ascii.eqb c "+") && plain s'
  end.

Lemma plain_trimmed s : plain s = true → QString.trimmed s = s.
Proof.
  intros Hs. unfold QString.trimmed.
  assert (QString.skip_spaces s = s) as ->.
  { destruct s as [|c s]; [done|]. simpl in *.
    by destruct (QString.isSpace c). }
  induction s as [|c s IH]; [done|].
  cbn [plain] in Hs. cbn [QString.trim_right QString.all_spaces].
  destruct (QString.isSpace c); [done|]. simpl in *.
  destruct (Ascii.eqb c "+"); [done|]. by rewrite IH.
Qed.

Lemma plain_digits d : plain (DecimalString.NilEmpty.string_of_uint d) = true.
Proof. induction d; simpl; by rewrite ?IHd. Qed.

Lemma plain_number z : plain (QString.number z) = true.
Proof.
  unfold QString.number, DecimalString.NilZero.string_of_int,
    DecimalString.NilZero.string_of_uint.
  destruct (Z.to_int z) as [d|d]; destruct d; try done;
    cbn [plain]; exact (plain_digits _).
Qed.

(** [QString::number] read back by [QString::toLongLong]. *)
Lemma toLongLong_number z :
  QString.toLongLong (QString.number z)
  = if (-9223372036854775808 <=? z) && (z <=? 9223372036854775807)
    then Some z else None.
Proof.
  unfold QString.toLongLong.
  rewrite (plain_trimmed _ (plain_number z)).
  assert (Hparse : DecimalString.NilZero.int_of_string (QString.number z)
                   = Some (Z.to_int z)).
  { unfold QString.number. apply DecimalString.NilZero.isi.
    - destruct z; simpl; try discriminate.
      intros [= H]. by apply DecimalPos.Unsigned.to_uint_nonnil in H.
    - destruct z; simpl; try discriminate.
      intros [= H]. by apply DecimalPos.Unsigned.to_uint_nonnil in H. }
  pose proof (plain_number z) as Hplain.
  destruct (QString.number z) as [|c digits] eqn:Hnumber; [done|].
  cbn [plain] in Hplain.
  destruct (Ascii.eqb c "+"); [by destruct (QString.isSpace c)|].
  rewrite Hparse. by rewrite DecimalZ.of_to.
Qed.

(** [QString::number] read back by [QString::toLong]: the number comes
    back exactly when it fits a [long]. *)
Lemma toLong_number `{!Platform} z :
  QString.toLong (QString.number z) = if fits_long z then Some z else None.
Proof.
  unfold QString.toLong. rewrite toLongLong_number.
  destruct ((-9223372036854775808 <=? z) && (z <=? 9223372036854775807))
    eqn:Hwide; [done|].
  assert (fits_long z = false) as ->; [|done].
  apply andb_false_iff in Hwide. unfold fits_long, LONG_MIN, LONG_MAX.
  apply andb_false_iff.
  destruct long_width, Hwide as [Hlow|Hhigh];
    [left|right|left|right]; lia.
Qed.

Section Numbers.
Context {Port : Type} `{!Transport Port} {platform : Platform}.

(** X21.  A replayed [read], [write] or [bytesAvailable] whose lookup
    finds an event holding a number as [QString::number] printed it
    returns that number when it fits a [long], and otherwise -1 for
    [read] and [write] and 0 for [bytesAvailable]: where [long] has 32
    bits a recorded length of 2^31 or more is not read back. *)
Theorem numbers_read_back now data maxSize (c : SerialPortConnection Port)
    x r e r' z :
  ctx_replay x = Some r →
  (getNextEventT ReceiveDataEvent "" r = (Some e, r') →
   m_values e !! "len" = Some (QString.number z) →
   out_result <$> read now maxSize c x
   = Some (if fits_long z then z else -1, [])) ∧
  (getNextEventT TransmitDataEvent (transmit_id data maxSize) r
   = (Some e, r') →
   m_values e !! "len" = Some (QString.number z) →
   out_result <$> write now data maxSize c x
   = Some (if fits_long z then z else -1)) ∧
  (getNextEventT GetValueEvent "bytesAvailable" r = (Some e, r') →
   (∃ key, head (m_keys e) = Some key ∧
           m_values e !! key = Some (QString.number z)) →
   data_allowed e →
   out_result <$> bytesAvailable now c x
   = Some (if fits_long z then z else 0)).
Proof.
  intros Hr.
  assert (Hlen : ∀ T, m_values e !! "len" = Some (QString.number z) →
            replayed_len (Event.copyIf (Some e) (Event.new T now))
            = if fits_long z then z else -1).
  { intros T Hz. unfold replayed_len, Event.get, value_or_default.
    cbn [Event.copyIf m_values]. rewrite Hz. cbn [default from_option id].
    rewrite toLong_number. by destruct (fits_long z). }
  split; [|split].
  - intros Hlookup Hz. unfold read. rewrite Hr.
    cbn [Event.id Event.new ev_class mbind option_bind]. rewrite Hlookup.
    cbn [replayed_transfer fmap option_fmap option_map out_result].
    by rewrite Hlen.
  - intros Hlookup Hz. unfold write, Event.setData.
    cbn [Event.new ev_class usesData Q_ASSERT mbind option_bind
         m_time m_next m_values m_keys].
    rewrite Hr. cbn [Event.id ev_class m_data mbind option_bind].
    fold (transmit_id data maxSize). rewrite Hlookup.
    cbn [replayed_transfer mbind option_bind].
    match goal with |- context [record ?w ?ev] =>
      destruct (record_total w ev) as [rec ->]
    end; [by apply data_allowed_uses|].
    cbn [mbind option_bind fmap option_fmap option_map out_result].
    f_equal. exact (Hlen TransmitDataEvent Hz).
  - intros Hlookup (key & Hkey & Hz) He. unfold bytesAvailable. rewrite Hr.
    cbn [GetValueEvent_new Event.id Event.set_int Event.set Event.new
         ev_class m_keys app head mbind option_bind].
    rewrite Hlookup.
    set (event := Event.copyIf (Some e) _).
    assert (Hallowed : data_allowed event).
    { apply getNextEventT_Some in Hlookup as [Hclass _].
      unfold data_allowed in *. intros Hd. specialize (He Hd).
      by rewrite Hclass in He. }
    assert (Hvalue : value event = QString.number z).
    { unfold value. change (m_keys event) with (m_keys e).
      destruct (m_keys e) as [|first keys]; [done|]. injection Hkey as ->.
      unfold Event.get, value_or_default.
      change (m_values event) with (m_values e). by rewrite Hz. }
    assert (Hid : Event.id event = Some key) by exact Hkey.
    unfold value_warning. change (m_keys event) with (m_keys e).
    destruct (m_keys e) as [|first keys]; [done|].
    rewrite (get_warning_total first event Hallowed).
    cbn [mbind option_bind].
    rewrite Hvalue, toLong_number.
    destruct (fits_long z); [|rewrite Hid]; cbn [mbind option_bind];
      destruct (record_total (ctx_record x) event Hallowed) as [rec ->];
      reflexivity.
Qed.

End Numbers.

(** A log whose transmission reports a length beyond 32 bits. *)
Definition wide_replay : XmlReplay :=
  default empty_replay
    (deserializeEvents static_event_factories example_clock
       [ mkElement "tx" [("time", "2020-06-01T12:00:00.000Z");
                         ("len", "4294967296")] "41 42" ]
       empty_replay).

Definition wide_transmission : XmlReplayEvent :=
  default (Event.new TransmitDataEvent "")
          (getNextEventT TransmitDataEvent "41 42" wide_replay).1.

Lemma numbers_read_back_witness :
  let c := mkConnection "COM3" true tt in
  let x := mkContext None (Some wide_replay) in
  let now := "2020-06-02T08:30:00.000Z" in
  out_result <$> write (platform := long64) now ["A"; "B"]%byte 2 c x
  = Some 4294967296 ∧
  out_result <$> write (platform := long32) now ["A"; "B"]%byte 2 c x
  = Some (-1).
Proof.
  intros c x now. split.
  - apply (numbers_read_back (platform := long64) now ["A"; "B"]%byte 2 c x
             wide_replay wide_transmission
             (getNextEventT TransmitDataEvent "41 42" wide_replay).2
             4294967296 eq_refl); vm_compute; reflexivity.
  - apply (numbers_read_back (platform := long32) now ["A"; "B"]%byte 2 c x
             wide_replay wide_transmission
             (getNextEventT TransmitDataEvent "41 42" wide_replay).2
             4294967296 eq_refl); vm_compute; reflexivity.
Defined.

(** ** Attempts to open are logged *)

Section OpenLogged.
Context {Port : Type} `{!Transport Port} `{!Platform}.

Lemma open_event_stamp now (c : SerialPortConnection Port) x out :
  m_opened c = false → open now c x = Some out →
  ∃ ev, out_event out = Some ev ∧
        ev_class ev = OpenConnectionEvent ∧ m_time ev = now.
Proof.
  unfold open. intros ->.
  destruct (ctx_replay x) as [r|].
  - destruct (getNextEventT _ _ r) as [[e|] r'];
      intros Hop; apply bind_Some in Hop as (rec & _ & [= <-]);
      eexists; split; done.
  - destruct (port_open _) as [ok port].
    intros Hop. apply bind_Some in Hop as (rec & _ & [= <-]).
    eexists. split; [done|].
    unfold checkResult_bool. destruct (_ && _); [done|]. by destruct ok.
Qed.

(** X22.  After static initialisation, while recording, every call of
    [openConnection] for the type [serial] and a name that is not open
    appends one [openConnection] element, stamped with the time of the
    call, to the manager's recorder, whether the open succeeds or
    fails. *)
Theorem openConnection_logged now later name mgr (mem : Memory Port) w
    res mgr' mem' :
  m_record mgr = Some w →
  m_connections mgr !! name = None →
  openConnection static_connection_factories now later "serial" name mgr mem
  = Some (res, mgr', mem') →
  ∃ el, m_record mgr' = Some (w ++ [el]) ∧
        el_name el = "openConnection" ∧
        head (el_attrs el) = Some ("time", now).
Proof.
  intros Hw Hname. unfold openConnection.
  destruct (static_connection_factories !! "serial") as [factory|] eqn:Hf.
  2: { unfold static_connection_factories, registerClass in Hf.
       rewrite bool_decide_eq_false_2 in Hf
         by (rewrite lookup_empty; by intros [? ?]).
       cbn [snd] in Hf. by rewrite lookup_insert_eq in Hf. }
  apply static_connection_factories_lookup in Hf as [_ ->].
  rewrite bool_decide_eq_false_2 by (rewrite Hname; by intros [? ?]).
  simpl. intros Hop. apply bind_Some in Hop as (out & Hout & Hop).
  pose proof (λ H, open_result_is_opened _ _ _ _ H Hout) as Hopened.
  specialize (Hopened eq_refl).
  assert (Hrecorded : ∃ el, ctx_record (out_ctx out) = Some (w ++ [el]) ∧
            el_name el = "openConnection" ∧
            head (el_attrs el) = Some ("time", now)).
  { destruct (open_records now (mkConnection name false port_new)
                (manager_context mgr) out eq_refl Hout w Hw)
      as (ev & el & Hev & Hel & Hrec).
    exists el. split; [done|].
    destruct (open_event_stamp now (mkConnection name false port_new)
                (manager_context mgr) out eq_refl Hout)
      as (ev' & Hev' & Hclass & Htime).
    assert (ev' = ev) as -> by congruence.
    unfold Event.serialize in Hel.
    apply bind_Some in Hel as ([attrs text] & _ & [= <-]).
    unfold Event.tag. by rewrite Hclass, Htime. }
  destruct Hrecorded as (el & Hrec & Hel).
  destruct (out_result out) eqn:Hres.
  - injection Hop as _ <- _. exists el. by split.
  - erewrite delete_connection_unopened in Hop;
      [|apply lookup_insert_eq|done].
    simpl in Hop. injection Hop as _ <- _. exists el. by split.
Qed.

End OpenLogged.

Definition example_attempt
  : option nat * DeviceConnectionManager * Memory unit :=
  default (None, example_manager, ∅)
    (openConnection static_connection_factories
       "2020-06-01T12:00:00.000Z" "2020-06-01T12:00:00.001Z"
       "serial" "COM3" example_manager ∅).

Lemma openConnection_logged_witness :
  ∃ el, m_record example_attempt.1.2 = Some ([] ++ [el]) ∧
        el_name el = "openConnection" ∧
        head (el_attrs el) = Some ("time", "2020-06-01T12:00:00.000Z").
Proof.
  apply (openConnection_logged (Port := unit)
           "2020-06-01T12:00:00.000Z" "2020-06-01T12:00:00.001Z" "COM3"
           example_manager ∅ [] example_attempt.1.1 example_attempt.1.2
           example_attempt.2);
    vm_compute; reflexivity.
Defined.
